(** * Evolium: a genetic-algorithm line fitter

    Shallow embedding of [evolium.py] and the properties of its core:
    population factory, fitness evaluator, tournament selector, breeder,
    mutator and the generational loop.

    Conventions of the embedding.
    - Python numbers are exact rationals ([Qc], canonical fractions, so that
      Python's [==] on numbers is Leibniz equality).  Binary floating point
      rounding error and the non-finite values are outside the model.
    - Exceptions are an error monad; the process-wide random source is a
      stream of raw draws [entropy] read through a cursor that every
      randomised operation advances.
    - A Python [set] is a duplicate-free list in insertion order; the
      iteration order of a real [set] is unspecified, so statements about
      sets are made up to membership or permutation. *)

From Stdlib Require Import ZArith QArith Qcanon Qcabs List ListSet.
From Stdlib Require Import Permutation Sorted Bool Lia Lqa.
Import ListNotations.

Close Scope Qc_scope.
Close Scope Q_scope.

(* ------------------------------------------------------------------ *)
(** ** Numbers *)

Module PyNum.

Definition Z2Qc (z : Z) : Qc := Q2Qc (inject_Z z).

Definition Qcltb (a b : Qc) : bool :=
  match (a ?= b)%Qc with Lt => true | _ => false end.

(** [min(a, b)] on numbers. *)
Definition py_min (a b : Qc) : Qc := if Qcltb b a then b else a.

(** [int(x)]: truncation toward zero. *)
Definition py_int (q : Qc) : Z := Z.quot (Qnum q) (Zpos (Qden q)).

(** Nearest integer, ties to the even neighbour: what [round] does at
    the last kept digit. *)
Definition half_even (q : Qc) : Z :=
  let n := Qnum q in
  let d := Zpos (Qden q) in
  let f := (n / d)%Z in
  match (2 * (n mod d) ?= d)%Z with
  | Lt => f
  | Gt => (f + 1)%Z
  | Eq => if Z.even f then f else (f + 1)%Z
  end.

(** [10 ** nd] for an integer [nd] of either sign. *)
Definition pow10 (nd : Z) : Qc :=
  match nd with
  | Z0 => Z2Qc 1
  | Zpos p => Z2Qc (10 ^ Zpos p)
  | Zneg p => (/ Z2Qc (10 ^ Zpos p))%Qc
  end.

(** [round(x, nd)]: a number again, with [nd] decimals kept. *)
Definition py_round (q : Qc) (nd : Z) : Qc :=
  (Z2Qc (half_even (q * pow10 nd)) / pow10 nd)%Qc.

End PyNum.
Import PyNum.

(* ------------------------------------------------------------------ *)
(** ** Exceptions and the two effect layers *)

(** The two [ValueError]s of the program differ by their message. *)
Inductive value_error : Type :=
| SampleLargerOrNegative                 (* raised by [random.sample] *)
| PopulationLength (len required : Z).   (* raised by the breeder *)

Inductive exn : Type :=
| ValueError (msg : value_error)
| IndexError
| TypeError
| NameError.

Inductive result (A : Type) : Type :=
| Ok (a : A)
| Raise (e : exn).
Arguments Ok {A} a.
Arguments Raise {A} e.

Definition rbind {A B} (r : result A) (k : A -> result B) : result B :=
  match r with
  | Ok a => k a
  | Raise e => Raise e
  end.

(** The cursor into the random source. *)
Definition cursor := nat.

(** Randomised, fallible computations. *)
Definition M (A : Type) : Type := cursor -> result (A * cursor).

Definition ret {A} (a : A) : M A := fun s => Ok (a, s).

Definition bind {A B} (x : M A) (k : A -> M B) : M B :=
  fun s => match x s with
           | Ok (a, s') => k a s'
           | Raise e => Raise e
           end.

Definition lift {A} (r : result A) : M A :=
  fun s => match r with
           | Ok a => Ok (a, s)
           | Raise e => Raise e
           end.

Declare Scope py_scope.
Delimit Scope py_scope with py.
Notation "'try' x <- e ; k" := (rbind e (fun x => k))
  (at level 10, x name, e at level 100, k at level 200) : py_scope.
Notation "'do' x <- e ; k" := (bind e (fun x => k))
  (at level 10, x name, e at level 100, k at level 200) : py_scope.
Open Scope py_scope.

Fixpoint rmapM {A B} (f : A -> result B) (l : list A) : result (list B) :=
  match l with
  | [] => Ok []
  | a :: t => try b <- f a; try bs <- rmapM f t; Ok (b :: bs)
  end.

(** [[act for _ in range(n)]] *)
Fixpoint replicateM {A} (n : nat) (act : M A) : M (list A) :=
  match n with
  | O => ret []
  | S n' => do a <- act; do rest <- replicateM n' act; ret (a :: rest)
  end.

(* ------------------------------------------------------------------ *)
(** ** Data model *)

Record Formula : Type := mkFormula
  { m : Qc; c : Qc; fitness : option Qc }.

Record DataPoint : Type := mkDataPoint { x : Qc; y : Qc }.

Record MCRange : Type := mkMCRange
  { minM : Z; maxM : Z; minC : Z; maxC : Z }.

Record HyperParams : Type := mkHyperParams
  { cycles : Z;
    mcrange : MCRange;
    popSize : Z;
    mutProb : Qc;
    mutVal : Qc;
    dps : Z;
    tournamentSize : Qc;
    goldenSize : Qc;
    immigrationSize : Qc }.

Definition option_Qc_eq_dec (a b : option Qc) : {a = b} + {a <> b}.
Proof. decide equality. apply Qc_eq_dec. Defined.

Definition Formula_eq_dec (a b : Formula) : {a = b} + {a <> b}.
Proof.
  decide equality; [apply option_Qc_eq_dec | apply Qc_eq_dec | apply Qc_eq_dec].
Defined.

Definition pair_eq_dec (a b : Qc * Qc) : {a = b} + {a <> b}.
Proof. decide equality; apply Qc_eq_dec. Defined.

(** [set(l)]: duplicates dropped, first occurrences kept. *)
Definition py_set {A} (dec : forall a b : A, {a = b} + {a <> b})
  (l : list A) : list A :=
  fold_left (fun s a => set_add dec a s) l (empty_set A).

(* ------------------------------------------------------------------ *)
(** ** The program *)

Section Program.

(** The raw draws of the process-wide random source. *)
Variable entropy : nat -> N.

(** The binding of the name [hyperParams] in the module's namespace:
    [Some hp] once the script's entry point has run [setup()], [None]
    when the module is imported and its functions are called directly. *)
Variable module_hyperParams : option HyperParams.

(** *** The [random] module

    The module belongs to Python's library, not to the program: it is
    modelled by what its documentation promises, every choice being read
    off the stream of raw draws. *)

(** [random.random()]: a multiple of [2**-53] in [[0, 1)]. *)
Definition random : M Qc :=
  fun s => Ok (Q2Qc (Z.of_N (entropy s mod 2 ^ 53) # 2 ^ 53), S s).

(** [random.uniform(a, b)] is [a + (b - a) * random()]. *)
Definition uniform (a b : Qc) : M Qc :=
  do u <- random; ret (a + (b - a) * u)%Qc.

Definition randbelow (n : nat) : M nat :=
  fun s => Ok (N.to_nat (entropy s mod N.of_nat n), S s).

(** [k] picks at pairwise distinct positions: each pick is removed from
    the pool before the next. *)
Fixpoint sample_loop {A} (k : nat) (pool : list A) : M (list A) :=
  match k with
  | O => ret []
  | S k' =>
      do j <- randbelow (length pool);
      match nth_error pool j with
      | Some a =>
          do rest <- sample_loop k' (firstn j pool ++ skipn (S j) pool);
          ret (a :: rest)
      | None => lift (Raise IndexError)
      end
  end.

(** [random.sample(population, k)] *)
Definition sample {A} (population : list A) (k : Z) : M (list A) :=
  if ((k <? 0) || (Z.of_nat (length population) <? k))%Z
  then lift (Raise (ValueError SampleLargerOrNegative))
  else sample_loop (Z.to_nat k) population.

(** *** Population factory *)

Definition __createPopulation (r : MCRange) (nd : Z) (n : Z)
  : M (list Formula) :=
  replicateM (Z.to_nat n)
    (do a <- uniform (Z2Qc (minM r)) (Z2Qc (maxM r));
     do b <- uniform (Z2Qc (minC r)) (Z2Qc (maxC r));
     ret (mkFormula (py_round a nd) (py_round b nd) None)).

(** *** Best candidate: [sorted(population, key=fitness)[0]] *)

(** [a < b] on two sort keys; [None] is not orderable. *)
Definition key_lt (a b : Formula) : result bool :=
  match fitness a, fitness b with
  | Some u, Some v => Ok (Qcltb u v)
  | _, _ => Raise TypeError
  end.

Fixpoint insert_by_fitness (a : Formula) (l : list Formula)
  : result (list Formula) :=
  match l with
  | [] => Ok [a]
  | b :: t =>
      try lt <- key_lt b a;
      if lt then try t' <- insert_by_fitness a t; Ok (b :: t')
      else Ok (a :: b :: t)
  end.

(** A stable sort, as [sorted] is. *)
Fixpoint sorted_by_fitness (l : list Formula) : result (list Formula) :=
  match l with
  | [] => Ok []
  | a :: t => try t' <- sorted_by_fitness t; insert_by_fitness a t'
  end.

Definition __best (population : list Formula) : result Formula :=
  try l <- sorted_by_fitness population;
  match l with
  | [] => Raise IndexError
  | b :: _ => Ok b
  end.

(** *** Fitness evaluator *)

(** Reading the free name [hyperParams] inside [__score]. *)
Definition lookup_hyperParams : result HyperParams :=
  match module_hyperParams with
  | Some hp => Ok hp
  | None => Raise NameError
  end.

Definition sumQc (l : list Qc) : Qc := fold_left Qcplus l (Z2Qc 0).

Definition __score (candidate : Formula) (data : list DataPoint)
  : result Qc :=
  try residuals <-
    rmapM (fun datapoint =>
             try hp <- lookup_hyperParams;
             Ok (Qcabs (py_round
                   (y datapoint - (m candidate * x datapoint + c candidate))
                   (dps hp))))
          data;
  Ok (sumQc residuals).

(** Truth value of a fitness: [None] and [0] are false. *)
Definition truthy (f : option Qc) : bool :=
  match f with
  | Some v => negb (Qc_eq_bool v (Z2Qc 0))
  | None => false
  end.

Definition __scorePopulation (population : list Formula)
  (data : list DataPoint) (hyperParams : HyperParams)
  : result (list Formula) :=
  rmapM (fun candidate =>
           try f <- (if truthy (fitness candidate)
                     then Ok (fitness candidate)
                     else try v <- __score candidate data; Ok (Some v));
           Ok (mkFormula (m candidate) (c candidate) f))
        population.

(** *** Selector *)

Definition tournamentCount (hp : HyperParams) : Z :=
  py_int (py_round (Z2Qc (popSize hp) * goldenSize hp) 0).

Definition tournamentSample (hp : HyperParams) : Z :=
  py_int (py_round (Z2Qc (popSize hp) * tournamentSize hp) 0).

Definition __selectPopulation (population : list Formula)
  (hyperParams : HyperParams) : M (list Formula) :=
  replicateM (Z.to_nat (tournamentCount hyperParams))
    (do contestants <- sample population (tournamentSample hyperParams);
     lift (__best contestants)).

(** *** Breeder *)

Definition __potentialChildren (population : list Formula)
  : list Formula :=
  let ms := map m population in
  let cs := map c population in
  let potentials :=
    py_set pair_eq_dec
      (map (fun cand => (snd cand, fst cand)) (list_prod ms cs)
       ++ list_prod ms cs) in
  map (fun pot => mkFormula (fst pot) (snd pot) None) potentials.

(** *** Mutator *)

Fixpoint mutate_loop (children : list Formula) (hyperParams : HyperParams)
  (mutatedChildren : list Formula) : M (list Formula) :=
  match children with
  | [] => ret mutatedChildren
  | child :: rest =>
      do u <- random;
      do mc <-
        (if Qcltb u (mutProb hyperParams) then
           do v <- random;
           let direction := py_round (v - Q2Qc (1 # 2)) 0 in
           do w <- random;
           if Qcltb w (Q2Qc (1 # 2))
           then ret (m child + mutVal hyperParams * direction, c child)%Qc
           else ret (m child, c child + mutVal hyperParams * direction)%Qc
         else ret (m child, c child));
      mutate_loop rest hyperParams
        (set_add Formula_eq_dec (mkFormula (fst mc) (snd mc) None)
                 mutatedChildren)
  end.

Definition __mutate (children : list Formula) (hyperParams : HyperParams)
  : M (list Formula) :=
  mutate_loop children hyperParams (empty_set Formula).

(** The size handed to [random.sample] by the breeder. *)
Definition childTarget (pool population : list Formula)
  (hyperParams : HyperParams) : Z :=
  py_int (py_min (Z2Qc (Z.of_nat (length pool)))
                 (Z2Qc (popSize hyperParams)
                  * (Z2Qc 1 - immigrationSize hyperParams)
                  - Z2Qc (Z.of_nat (length population)))%Qc).

Definition __breedPopulation (population : list Formula)
  (hyperParams : HyperParams) : M (list Formula) :=
  let pool := __potentialChildren population in
  do children <- sample pool (childTarget pool population hyperParams);
  do mutatedChildren <- __mutate children hyperParams;
  let immigrants :=
    (popSize hyperParams
     - (Z.of_nat (length children) + Z.of_nat (length population)))%Z in
  do newcomers <-
    __createPopulation (mcrange hyperParams) (dps hyperParams) immigrants;
  let population' := population ++ children ++ newcomers in
  if (Z.of_nat (length population') =? popSize hyperParams)%Z
  then ret population'
  else lift (Raise (ValueError
               (PopulationLength (Z.of_nat (length population'))
                                 (popSize hyperParams)))).

(** *** Crossover *)

Definition __crossover (a b : Formula) : Formula :=
  mkFormula (m a) (c b) None.

(** *** Evolution engine *)

(** [best.fitness == 0] *)
Definition is_zero (f : option Qc) : bool :=
  match f with
  | Some v => Qc_eq_bool v (Z2Qc 0)
  | None => false
  end.

(** The [for] loop of [evolve] from index [i] on, with [n] iterations
    left: [inl] is a [return] from inside the loop, [inr] the base
    population the loop ends with. *)
Fixpoint evolve_loop (data : list DataPoint) (hyperParams : HyperParams)
  (n : nat) (i : Z) (basePopulation : list Formula)
  : M (Formula * Z + list Formula) :=
  match n with
  | O => ret (inr basePopulation)
  | S n' =>
      do fitPopulation <-
        lift (__scorePopulation basePopulation data hyperParams);
      do b <- lift (__best fitPopulation);
      if is_zero (fitness b) then ret (inl (b, (i + 1)%Z))
      else
        do bestPopulation <- __selectPopulation fitPopulation hyperParams;
        do basePopulation' <-
          (if (i + 1 <? cycles hyperParams)%Z
           then __breedPopulation bestPopulation hyperParams
           else ret bestPopulation);
        evolve_loop data hyperParams n' (i + 1)%Z basePopulation'
  end.

Definition evolve (data : list DataPoint) (hyperParams : HyperParams)
  : M (Formula * Z) :=
  do basePopulation <-
    __createPopulation (mcrange hyperParams) (dps hyperParams)
                     (popSize hyperParams);
  do r <- evolve_loop data hyperParams
            (Z.to_nat (cycles hyperParams)) 0%Z basePopulation;
  match r with
  | inl returned => ret returned
  | inr basePopulation' =>
      do b <- lift (__best basePopulation');
      ret (b, cycles hyperParams)
  end.

End Program.

(* ------------------------------------------------------------------ *)
(** ** Vocabulary of the statements *)

(** *** Candidates and populations *)

(** A candidate with its fitness discarded. *)
Definition unscored (f : Formula) : Formula := mkFormula (m f) (c f) None.

(** What [__scorePopulation] makes of a candidate whose score is [v]. *)
Definition with_score (v : Qc) (candidate : Formula) : Formula :=
  mkFormula (m candidate) (c candidate)
            (if truthy (fitness candidate) then fitness candidate
             else Some v).

(** Every member carries a fitness. *)
Definition scored (population : list Formula) : Prop :=
  Forall (fun f => exists v, fitness f = Some v) population.

(** [a] is scored no worse than [b] (lower is better). *)
Definition fitness_le (a b : Formula) : Prop :=
  exists u v, fitness a = Some u /\ fitness b = Some v /\ (u <= v)%Qc.

(** [b] is a member of [population] of minimal fitness. *)
Definition is_best (b : Formula) (population : list Formula) : Prop :=
  In b population /\ forall a, In a population -> fitness_le b a.

(** [b] won a tournament of [k] contestants drawn from [population]
    without replacement. *)
Definition won_tournament (population : list Formula) (k : Z)
  (b : Formula) : Prop :=
  exists contestants rest,
    Z.of_nat (length contestants) = k /\
    Permutation (contestants ++ rest) population /\
    is_best b contestants.

(** [b] differs from [a] by exactly [+v] or [-v] in exactly one of [m]
    and [c], the other being unchanged. *)
Definition moved_by (v : Qc) (a b : Formula) : Prop :=
  ((m b = m a + v \/ m b = m a - v) /\ c b = c a)%Qc \/
  (m b = m a /\ (c b = c a + v \/ c b = c a - v))%Qc.

(** [b] is [a] with [v * direction] added to one of [m] and [c], for a
    direction among -1, 0 and +1. *)
Definition stepped_by (v : Qc) (a b : Formula) : Prop :=
  exists direction : Z,
    (-1 <= direction <= 1)%Z /\
    ((m b = m a + v * Z2Qc direction /\ c b = c a)%Qc \/
     (m b = m a /\ c b = c a + v * Z2Qc direction)%Qc).

(** A computation is refused: it ends in an exception. *)
Definition refuses {A} (r : result A) : Prop := exists e, r = Raise e.

(** *** Hyperparameters *)

(** A fraction in (0, 1]. *)
Definition unit_fraction (q : Qc) : Prop :=
  (Z2Qc 0 < q)%Qc /\ (q <= Z2Qc 1)%Qc.

(** The documented ranges of the hyperparameters. *)
Definition valid_hyperParams (hp : HyperParams) : Prop :=
  (1 <= cycles hp)%Z /\ (1 <= popSize hp)%Z /\
  (minM (mcrange hp) <= maxM (mcrange hp))%Z /\
  (minC (mcrange hp) <= maxC (mcrange hp))%Z /\
  (0 <= dps hp)%Z /\
  unit_fraction (mutProb hp) /\
  unit_fraction (tournamentSize hp) /\
  unit_fraction (goldenSize hp) /\
  unit_fraction (immigrationSize hp).

(** The documented ranges of the selector's parameters. *)
Definition valid_selection (hp : HyperParams) : Prop :=
  (1 <= popSize hp)%Z /\
  (Z2Qc 0 < tournamentSize hp)%Qc /\ (tournamentSize hp <= Z2Qc 1)%Qc.

(** What the ranges leave open: every tournament has a contestant, there
    is a tournament, and the elite exceeds the non-immigrant quota by
    less than one. *)
Definition feasible (hp : HyperParams) : Prop :=
  (1 <= tournamentSample hp)%Z /\
  (1 <= tournamentCount hp)%Z /\
  (Z2Qc (-1) < Z2Qc (popSize hp) * (Z2Qc 1 - immigrationSize hp)
               - Z2Qc (tournamentCount hp))%Qc.

(** *** Generations *)

(** The scored population of generation [i] (0-based) together with the
    cursor it leaves, as the loop of [evolve] produces it while no
    earlier generation has converged. *)
Fixpoint scoredGeneration (entropy : nat -> N)
  (module : option HyperParams) (data : list DataPoint)
  (hp : HyperParams) (i : nat) : M (list Formula) :=
  match i with
  | O =>
      do base <- __createPopulation entropy (mcrange hp) (dps hp) (popSize hp);
      lift (__scorePopulation module base data hp)
  | S j =>
      do fit <- scoredGeneration entropy module data hp j;
      do elite <- __selectPopulation entropy fit hp;
      do base <- __breedPopulation entropy elite hp;
      lift (__scorePopulation module base data hp)
  end.

(** Generation [j] exists and its best candidate is not a perfect fit. *)
Definition unconverged (entropy : nat -> N) (module : option HyperParams)
  (data : list DataPoint) (hp : HyperParams) (s0 : cursor) (j : nat)
  : Prop :=
  exists fit s b0,
    scoredGeneration entropy module data hp j s0 = Ok (fit, s) /\
    __best fit = Ok b0 /\ is_zero (fitness b0) = false.

(** *** The specification's wording, where it is compared with the code *)

(** The score: the sum over the data points of
    [|round(y - (m*x + c), precision)|]. *)
Definition spec_score (candidate : Formula) (data : list DataPoint)
  (precision : Z) : Qc :=
  sumQc (map (fun datapoint =>
                Qcabs (py_round
                         (y datapoint
                          - (m candidate * x datapoint + c candidate))%Qc
                         precision))
             data).

(** The pool: the cross product of the elite's [m]-values with its
    [c]-values, deduplicated, each pair a fitness-unset child. *)
Definition spec_pool (population : list Formula) : list Formula :=
  map (fun pot => mkFormula (fst pot) (snd pot) None)
      (py_set pair_eq_dec
              (list_prod (map m population) (map c population))).

(** The number of children:
    [min(poolSize, round(popSize * (1 - immigrationSize)) - eliteSize)],
    a negative difference counting as zero. *)
Definition spec_childCount (pool population : list Formula)
  (hp : HyperParams) : Z :=
  Z.min (Z.of_nat (length pool))
        (Z.max 0
           (half_even (Z2Qc (popSize hp) * (Z2Qc 1 - immigrationSize hp))%Qc
            - Z.of_nat (length population))).

(** The breeder draws its children without error, and as many of them
    as the specification counts. *)
Definition samples_spec_childCount (entropy : nat -> N)
  (population : list Formula) (hp : HyperParams) (s : cursor) : Prop :=
  exists children s1,
    sample entropy (__potentialChildren population)
           (childTarget (__potentialChildren population) population hp) s
    = Ok (children, s1) /\
    Z.of_nat (length children)
    = spec_childCount (__potentialChildren population) population hp.

(** The mutation magnitude: every output of the mutator is some input
    moved by exactly [mutVal], up or down, in exactly one coordinate. *)
Definition mutation_magnitude (entropy : nat -> N) (hp : HyperParams)
  (children : list Formula) (s : cursor) : Prop :=
  forall out s',
    __mutate entropy children hp s = Ok (out, s') ->
    forall f, In f out ->
              exists child, In child children /\ moved_by (mutVal hp) child f.

(** The selection goes through. *)
Definition selection_succeeds (entropy : nat -> N)
  (population : list Formula) (hp : HyperParams) (s : cursor) : Prop :=
  exists elite s', __selectPopulation entropy population hp s = Ok (elite, s').

(** The outcome of [evolve]: a result [(b, n)] within the budget, [b] of
    minimal fitness in generation [n - 1], the last one evaluated, and
    either a perfect fit or the budget used up. *)
Definition returns_best_of_last_generation (entropy : nat -> N)
  (module : option HyperParams) (data : list DataPoint)
  (hp : HyperParams) (s : cursor) : Prop :=
  exists b n s',
    evolve entropy module data hp s = Ok ((b, n), s') /\
    (1 <= n <= cycles hp)%Z /\
    exists fit s1,
      scoredGeneration entropy module data hp (Z.to_nat (n - 1)) s
      = Ok (fit, s1) /\
      is_best b fit /\
      (fitness b = Some (Z2Qc 0) \/ n = cycles hp).

(** *** Worked inputs *)

(** A candidate with integer coordinates and fitness. *)
Definition lineFormula (a b : Z) (f : option Z) : Formula :=
  mkFormula (Z2Qc a) (Z2Qc b) (option_map Z2Qc f).

(** A random source given by its first raw draws, zero afterwards. *)
Definition draws (l : list N) : nat -> N := fun i => nth i l 0%N.

(** A random source whose [random()] values are the given eighths. *)
Definition eighths (l : list N) : nat -> N :=
  fun i => (nth i l 0 * 2 ^ 50)%N.

Definition example_draws : nat -> N := draws [5; 3; 7; 1; 0; 2]%N.

Definition eighth_draws : nat -> N := eighths [1; 2; 3; 4]%N.

(** The first four [random()] values are 1/8, 2/8, 3/8 and 4/8, the
    fifth raw draw is 1. *)
Definition tournament_draws : nat -> N :=
  draws (map (fun k => k * 2 ^ 50)%N [1; 2; 3; 4]%N ++ [1%N]).

(** [mutProb = 1.0] and [mutVal = 5]; [popSize = 10] with the fractions
    0.2 (tournament), 0.4 (elite) and 0.2 (immigration). *)
Definition hp_mutation : HyperParams :=
  mkHyperParams 10 (mkMCRange 0 10 0 10) 10 (Z2Qc 1) (Z2Qc 5) 0
                (Q2Qc (2 # 10)) (Q2Qc (4 # 10)) (Q2Qc (2 # 10)).

(** The same with a precision of one's choice. *)
Definition hp_dps (precision : Z) : HyperParams :=
  mkHyperParams 10 (mkMCRange 0 10 0 10) 10 (Z2Qc 1) (Z2Qc 5) precision
                (Q2Qc (2 # 10)) (Q2Qc (4 # 10)) (Q2Qc (2 # 10)).

(** [popSize = 10] with an immigration fraction of 0.25: a quota of 7.5. *)
Definition hp_quarter : HyperParams :=
  mkHyperParams 10 (mkMCRange 0 10 0 10) 10 (Z2Qc 1) (Z2Qc 5) 0
                (Q2Qc (2 # 10)) (Q2Qc (4 # 10)) (Q2Qc (1 # 4)).

(** [popSize = 2] with an immigration fraction of 0.2: a quota of 1.6. *)
Definition hp_small : HyperParams :=
  mkHyperParams 10 (mkMCRange 0 10 0 10) 2 (Z2Qc 1) (Z2Qc 5) 0
                (Q2Qc (2 # 10)) (Z2Qc 1) (Q2Qc (2 # 10)).

(** [popSize = 2] with an immigration fraction of -1, outside its range:
    a quota of 4. *)
Definition hp_oversized : HyperParams :=
  mkHyperParams 10 (mkMCRange 0 10 0 10) 2 (Z2Qc 1) (Z2Qc 5) 0
                (Q2Qc (2 # 10)) (Q2Qc (4 # 10)) (Q2Qc (-1)).

(** [popSize = 5] with the default fractions: tournaments of
    [round(5 * 0.08) = 0] contestants, [round(5 * 0.4) = 2] of them. *)
Definition hp_sparse : HyperParams :=
  mkHyperParams 10 (mkMCRange 0 10 0 10) 5 (Z2Qc 1) (Z2Qc 5) 0
                (Q2Qc (8 # 100)) (Q2Qc (4 # 10)) (Q2Qc (2 # 10)).

(** [popSize = 2], one cycle, one tournament of one contestant. *)
Definition hp_pair : HyperParams :=
  mkHyperParams 1 (mkMCRange 0 10 0 10) 2 (Z2Qc 1) (Z2Qc 5) 0
                (Q2Qc (1 # 2)) (Q2Qc (1 # 2)) (Q2Qc (2 # 10)).

(** The elite (m=1, c=2), (m=3, c=4). *)
Definition elite_1234 : list Formula :=
  [lineFormula 1 2 (Some 3%Z); lineFormula 3 4 (Some 7%Z)].

Definition elite_three : list Formula :=
  [lineFormula 1 2 (Some 3%Z); lineFormula 3 4 (Some 7%Z);
   lineFormula 5 6 (Some 7%Z)].

Definition population_pair : list Formula :=
  [lineFormula 1 2 (Some 2%Z); lineFormula 4 5 (Some 5%Z)].

Definition population_five : list Formula :=
  [lineFormula 1 1 (Some 1%Z); lineFormula 2 2 (Some 2%Z);
   lineFormula 3 3 (Some 3%Z); lineFormula 4 4 (Some 4%Z);
   lineFormula 5 5 (Some 5%Z)].

(** One observation, (x, y) = (0, 1.26). *)
Definition data_126 : list DataPoint :=
  [mkDataPoint (Z2Qc 0) (Q2Qc (126 # 100))].

(** One observation, the origin. *)
Definition data_origin : list DataPoint := [mkDataPoint (Z2Qc 0) (Z2Qc 0)].

(** *** Decidable equality of outcomes *)

Definition result_eq_dec {A} (dec : forall a b : A, {a = b} + {a <> b})
  (r1 r2 : result A) : {r1 = r2} + {r1 <> r2}.
Proof. repeat decide equality. Defined.

Definition run_eq_dec {A} (dec : forall a b : A, {a = b} + {a <> b})
  (r1 r2 : result (A * cursor)) : {r1 = r2} + {r1 <> r2}.
Proof. repeat decide equality. Defined.

Definition evolve_eq_dec :
  forall r1 r2 : result (Formula * Z * cursor), {r1 = r2} + {r1 <> r2}.
Proof.
  apply run_eq_dec. decide equality; [apply Z.eq_dec | apply Formula_eq_dec].
Defined.

(* ------------------------------------------------------------------ *)
(** ** Further vocabulary *)

(** [a] is scored strictly better than [b]. *)
Definition fitness_lt (a b : Formula) : Prop :=
  exists u v, fitness a = Some u /\ fitness b = Some v /\ (u < v)%Qc.

(** The residual of a candidate at a data point, rounded as [__score]
    rounds it. *)
Definition rounded_residual (candidate : Formula) (precision : Z)
  (datapoint : DataPoint) : Qc :=
  py_round (y datapoint - (m candidate * x datapoint + c candidate))%Qc
           precision.

(** The hyperparameters [__parseArgs] builds when no option is given:
    the defaults of its [add_argument] calls. *)
Definition default_hyperParams : HyperParams :=
  mkHyperParams 1000 (mkMCRange 0 100 0 100) 100
                (Q2Qc (1 # 100)) (Q2Qc (5 # 100)) 1
                (Q2Qc (8 # 100)) (Q2Qc (4 # 10)) (Q2Qc (2 # 10)).

(** Three observations on the line [y = x]. *)
Definition data_diagonal : list DataPoint :=
  [mkDataPoint (Z2Qc 0) (Z2Qc 0); mkDataPoint (Z2Qc 1) (Z2Qc 1);
   mkDataPoint (Z2Qc 2) (Z2Qc 2)].

(** The fitness [f] carries is its score on [data] at the precision of
    [g]. *)
Definition fitness_is_score (g : HyperParams) (data : list DataPoint)
  (f : Formula) : Prop :=
  fitness f = Some (spec_score f data (dps g)).

(* ================================================================== *)
(** * Properties *)

(** ** Closed equations, decided by computation *)

Ltac decide_eq dec :=
  match goal with
  | |- ?a = ?b =>
      let E := fresh in
      destruct (dec a b) as [E|E] eqn:?;
      [exact E | exfalso; vm_compute in *; discriminate]
  end.

Ltac refute_eq dec H :=
  match type of H with
  | ?a = ?b =>
      let N := fresh in
      destruct (dec a b) as [N|N] eqn:?;
      [exfalso; vm_compute in *; discriminate | exact (N H)]
  end.

(** ** Numbers *)

Lemma Qcltb_lt (a b : Qc) : Qcltb a b = true <-> (a < b)%Qc.
Proof.
  unfold Qcltb. rewrite Qclt_alt. destruct (a ?= b)%Qc; split; congruence.
Qed.

Lemma Qcltb_ge (a b : Qc) : Qcltb a b = false <-> (b <= a)%Qc.
Proof.
  split; intro H.
  - apply Qcnot_lt_le. intro L. apply Qcltb_lt in L. congruence.
  - destruct (Qcltb a b) eqn:E; [|reflexivity].
    apply Qcltb_lt in E. apply Qclt_not_le in E. contradiction.
Qed.

Lemma half_even_centred (q : Qc) :
  (Q2Qc (-1 # 2) <= q)%Qc -> (q < Q2Qc (1 # 2))%Qc -> half_even q = 0%Z.
Proof.
  destruct q as [[n d] Hc].
  unfold Qcle, Qclt, Qle, Qlt, half_even. cbn [this Qnum Qden].
  change (this (Q2Qc (-1 # 2))) with (-1 # 2)%Q.
  change (this (Q2Qc (1 # 2))) with (1 # 2)%Q.
  cbn [Qnum Qden]. intros Hlo Hhi.
  assert (Hd : (0 < Zpos d)%Z) by lia.
  destruct (Z.neg_nonneg_cases n) as [Hn|Hn].
  - assert (Hq : (n / Zpos d = -1)%Z).
    { symmetry. apply (Z.div_unique n (Zpos d) (-1) (n + Zpos d)); lia. }
    assert (Hr : (n mod Zpos d = n + Zpos d)%Z).
    { symmetry. apply (Z.mod_unique n (Zpos d) (-1) (n + Zpos d)); lia. }
    rewrite Hq, Hr.
    destruct (Z.compare_spec (2 * (n + Zpos d)) (Zpos d)); try lia; reflexivity.
  - rewrite (Z.div_small n (Zpos d)) by lia.
    rewrite (Z.mod_small n (Zpos d)) by lia.
    destruct (Z.compare_spec (2 * n) (Zpos d)); try lia; reflexivity.
Qed.

Lemma py_round_0 (q : Qc) : py_round q 0 = Z2Qc (half_even q).
Proof.
  unfold py_round, pow10. change (Z2Qc 1) with 1%Qc.
  rewrite Qcmult_1_r. unfold Qcdiv. 
  field. discriminate.
Qed.

Lemma random_range entropy s :
  exists u, random entropy s = Ok (u, S s) /\ (0 <= u)%Qc /\ (u < 1)%Qc.
Proof.
  unfold random. eexists. split; [reflexivity|].
  assert (H : (entropy s mod 2 ^ 53 < 2 ^ 53)%N) by (apply N.mod_lt; discriminate).
  unfold Qcle, Qclt. cbn [this Q2Qc]. rewrite !Qred_correct.
  unfold Qle, Qlt. cbn [Qnum Qden].
  change (Z.pos (2 ^ 53)) with (Z.of_N (2 ^ 53)).
  generalize dependent (entropy s mod 2 ^ 53)%N.
  generalize (2 ^ 53)%N. intros; lia.
Qed.

Lemma centred_draw_rounds_to_zero (u : Qc) :
  (0 <= u)%Qc -> (u < 1)%Qc -> py_round (u - Q2Qc (1 # 2)) 0 = Z2Qc 0.
Proof.
  intros H0 H1. rewrite py_round_0. f_equal. apply half_even_centred.
  - unfold Qcle in *. unfold Qcminus, Qcplus, Qcopp. cbn [this Q2Qc] in *.
    rewrite !Qred_correct in *. lra.
  - unfold Qclt in *. unfold Qcminus, Qcplus, Qcopp. cbn [this Q2Qc] in *.
    rewrite !Qred_correct in *. lra.
Qed.

Lemma this_Z2Qc (z : Z) : (this (Z2Qc z) == inject_Z z)%Q.
Proof. unfold Z2Qc. cbn [this Q2Qc]. apply Qred_correct. Qed.

Lemma Z2Qc_le (a b : Z) : (Z2Qc a <= Z2Qc b)%Qc <-> (a <= b)%Z.
Proof.
  unfold Qcle. rewrite !this_Z2Qc, <- Zle_Qle. reflexivity.
Qed.

Lemma Z2Qc_lt (a b : Z) : (Z2Qc a < Z2Qc b)%Qc <-> (a < b)%Z.
Proof.
  unfold Qclt. rewrite !this_Z2Qc, <- Zlt_Qlt. reflexivity.
Qed.

(** Comparing a fraction with an integer, on numerator and denominator. *)
Lemma Z2Qc_le_frac (k : Z) (q : Qc) :
  (Z2Qc k <= q)%Qc <-> (k * Zpos (Qden q) <= Qnum q)%Z.
Proof.
  unfold Qcle. rewrite this_Z2Qc. unfold Qle. cbn [inject_Z Qnum Qden].
  rewrite Z.mul_1_r. reflexivity.
Qed.

Lemma frac_lt_Z2Qc (k : Z) (q : Qc) :
  (q < Z2Qc k)%Qc <-> (Qnum q < k * Zpos (Qden q))%Z.
Proof.
  unfold Qclt. rewrite this_Z2Qc. unfold Qlt. cbn [inject_Z Qnum Qden].
  rewrite Z.mul_1_r. reflexivity.
Qed.

Lemma frac_le_Z2Qc (k : Z) (q : Qc) :
  (q <= Z2Qc k)%Qc <-> (Qnum q <= k * Zpos (Qden q))%Z.
Proof.
  unfold Qcle. rewrite this_Z2Qc. unfold Qle. cbn [inject_Z Qnum Qden].
  rewrite Z.mul_1_r. reflexivity.
Qed.

Lemma Z2Qc_lt_frac (k : Z) (q : Qc) :
  (Z2Qc k < q)%Qc <-> (k * Zpos (Qden q) < Qnum q)%Z.
Proof.
  unfold Qclt. rewrite this_Z2Qc. unfold Qlt. cbn [inject_Z Qnum Qden].
  rewrite Z.mul_1_r. reflexivity.
Qed.

Lemma py_int_nonneg (q : Qc) : (0 <= py_int q)%Z <-> (Z2Qc (-1) < q)%Qc.
Proof.
  rewrite Z2Qc_lt_frac. unfold py_int.
  generalize (Qnum q) (Qden q). intros n d.
  pose proof (Z.quot_rem' n (Zpos d)).
  assert (Hd : (0 < Zpos d)%Z) by lia.
  destruct (Z.neg_nonneg_cases n) as [Hn|Hn].
  - pose proof (Z.rem_bound_pos_neg n (Zpos d) Hd ltac:(lia)). nia.
  - pose proof (Z.rem_bound_pos n (Zpos d) Hn Hd). nia.
Qed.

Lemma py_int_floor (q : Qc) :
  (Z2Qc 0 <= q)%Qc ->
  (Z2Qc (py_int q) <= q)%Qc /\ (q < Z2Qc (py_int q + 1))%Qc.
Proof.
  rewrite Z2Qc_le_frac, Z2Qc_le_frac, frac_lt_Z2Qc. unfold py_int.
  generalize (Qnum q) (Qden q). intros n d Hn.
  pose proof (Z.quot_rem' n (Zpos d)).
  assert (Hd : (0 < Zpos d)%Z) by lia.
  pose proof (Z.rem_bound_pos n (Zpos d) ltac:(lia) Hd). nia.
Qed.

Lemma py_int_Z2Qc (z : Z) : py_int (Z2Qc z) = z.
Proof.
  pose proof (Z2Qc_le_frac z (Z2Qc z)) as H1.
    pose proof (frac_le_Z2Qc z (Z2Qc z)) as H2.
    assert (E : (Qnum (Z2Qc z) = z * Zpos (Qden (Z2Qc z)))%Z).
    { apply Z.le_antisymm; [apply H2 | apply H1]; apply Qcle_refl. }
    unfold py_int. rewrite E. apply Z.quot_mul. lia.
Qed.

Lemma half_even_near (q : Qc) :
  ((2 * half_even q - 1) * Zpos (Qden q) <= 2 * Qnum q
   <= (2 * half_even q + 1) * Zpos (Qden q))%Z.
Proof.
  unfold half_even. generalize (Qnum q) (Qden q). intros n d.
  assert (Hd : (0 < Zpos d)%Z) by lia.
  pose proof (Z.div_mod n (Zpos d) ltac:(lia)) as E.
  pose proof (Z.mod_pos_bound n (Zpos d) Hd) as B.
  set (f := (n / Zpos d)%Z) in *. set (r := (n mod Zpos d)%Z) in *.
  destruct (Z.compare_spec (2 * r) (Zpos d)) as [C|C|C];
    [destruct (Z.even f)| |]; nia.
Qed.

Lemma half_even_le (q : Qc) (k : Z) :
  (q <= Z2Qc k)%Qc -> (half_even q <= k)%Z.
Proof.
  rewrite frac_le_Z2Qc. pose proof (half_even_near q).
  assert (0 < Zpos (Qden q))%Z by lia. nia.
Qed.

Lemma half_even_ge (q : Qc) (k : Z) :
  (Z2Qc k <= q)%Qc -> (k <= half_even q)%Z.
Proof.
  rewrite Z2Qc_le_frac. pose proof (half_even_near q).
  assert (0 < Zpos (Qden q))%Z by lia. nia.
Qed.

Lemma py_int_py_round_0 (q : Qc) : py_int (py_round q 0) = half_even q.
Proof. rewrite py_round_0. apply py_int_Z2Qc. Qed.

Lemma py_min_cases (a b : Qc) :
  (py_min a b = a /\ (a <= b)%Qc) \/ (py_min a b = b /\ (b < a)%Qc).
Proof.
  unfold py_min. destruct (Qcltb b a) eqn:E.
  - right. split; [reflexivity | apply Qcltb_lt; exact E].
  - left. split; [reflexivity | apply Qcltb_ge; exact E].
Qed.

Lemma py_int_le (q : Qc) (k : Z) :
  (q <= Z2Qc k)%Qc -> (0 <= k)%Z -> (py_int q <= k)%Z.
Proof.
  intros Hq Hk.
  destruct (Qclt_le_dec q (Z2Qc 0)) as [Hneg|Hpos].
  - apply frac_lt_Z2Qc in Hneg. unfold py_int.
    assert (Qnum q ÷ Zpos (Qden q) <= 0)%Z; [|lia].
    pose proof (Z.quot_rem' (Qnum q) (Zpos (Qden q))).
    pose proof (Z.rem_bound_pos_neg (Qnum q) (Zpos (Qden q)) ltac:(lia) ltac:(lia)).
    nia.
  - destruct (py_int_floor q Hpos) as [H1 _].
    apply Z2Qc_le. eapply Qcle_trans; eassumption.
Qed.

Lemma Z2Qc_plus (a b : Z) : Z2Qc (a + b) = (Z2Qc a + Z2Qc b)%Qc.
Proof.
  apply Qc_is_canon. unfold Z2Qc, Qcplus. cbn [this Q2Qc].
  rewrite !Qred_correct, inject_Z_plus. reflexivity.
Qed.

Ltac qc_linear :=
  unfold Qcle, Qclt, Qcminus, Qcplus, Qcopp, Z2Qc in *;
  cbn [this Q2Qc] in *; rewrite ?Qred_correct in *;
  change (inject_Z 0) with 0%Q in *; change (inject_Z 1) with 1%Q in *;
  change (inject_Z (-1)) with (-1)%Q in *; lra.

(** ** Effects *)

Lemma bind_Ok {A B} (x : M A) (k : A -> M B) s b s' :
  bind x k s = Ok (b, s') <->
  exists a s1, x s = Ok (a, s1) /\ k a s1 = Ok (b, s').
Proof.
  unfold bind. split.
  - destruct (x s) as [[a s1]|e]; [eauto | discriminate].
  - intros (a & s1 & -> & H). exact H.
Qed.

(** ** Sets *)

Lemma fold_set_add_In {A} (dec : forall a b : A, {a = b} + {a <> b})
  (f : A -> A) l acc a :
  In a (fold_left (fun s b => set_add dec (f b) s) l acc) <->
  In a acc \/ exists b, In b l /\ a = f b.
Proof.
  revert acc. induction l as [|b l IH]; intro acc; simpl.
  - split; [auto | intros [H|(b & [] & _)]; auto].
  - rewrite IH, set_add_iff. split.
    + intros [[->|H]|(b' & H & ->)]; eauto.
    + intros [H|(b' & [->|H] & ->)]; eauto.
Qed.

Lemma fold_set_add_NoDup {A} (dec : forall a b : A, {a = b} + {a <> b})
  (f : A -> A) l acc :
  NoDup acc -> NoDup (fold_left (fun s b => set_add dec (f b) s) l acc).
Proof.
  revert acc. induction l as [|b l IH]; intros acc H; simpl; auto.
  apply IH. apply set_add_nodup. exact H.
Qed.

Lemma py_set_In {A} (dec : forall a b : A, {a = b} + {a <> b}) l a :
  In a (py_set dec l) <-> In a l.
Proof.
  unfold py_set. rewrite (fold_set_add_In dec (fun b => b)). split.
  - intros [[]|(b & H & ->)]; auto.
  - intro H. right. eauto.
Qed.

Lemma py_set_NoDup {A} (dec : forall a b : A, {a = b} + {a <> b}) l :
  NoDup (py_set dec l).
Proof. apply (fold_set_add_NoDup dec (fun b => b)). constructor. Qed.

(** ** The [random] module *)

Lemma firstn_skipn_middle {A} (l1 l2 : list A) a :
  firstn (length l1) (l1 ++ a :: l2) = l1 /\
  skipn (S (length l1)) (l1 ++ a :: l2) = l2.
Proof.
  induction l1 as [|b l1 [IH1 IH2]]; cbn; [auto|].
  split; [f_equal; exact IH1 | exact IH2].
Qed.

Lemma nth_error_pick {A} (l : list A) j a :
  nth_error l j = Some a ->
  Permutation l (a :: firstn j l ++ skipn (S j) l) /\
  length (firstn j l ++ skipn (S j) l) = pred (length l).
Proof.
  intro H. destruct (nth_error_split l j H) as (l1 & l2 & -> & <-).
  destruct (firstn_skipn_middle l1 l2 a) as [-> ->].
  split.
  - symmetry. apply Permutation_middle.
  - rewrite !length_app. simpl. lia.
Qed.

Lemma sample_loop_ok entropy {A} (k : nat) (pool : list A) s :
  (k <= length pool)%nat ->
  exists l rest,
    sample_loop entropy k pool s = Ok (l, (s + k)%nat) /\
    length l = k /\ Permutation (l ++ rest) pool.
Proof.
  revert pool s. induction k as [|k IH]; intros pool s Hk.
  - exists [], pool. rewrite Nat.add_0_r. repeat split; auto.
  - cbn [sample_loop]. unfold bind at 1, randbelow.
    set (j := N.to_nat (entropy s mod N.of_nat (length pool))).
    assert (Hj : (j < length pool)%nat).
    { subst j. assert (N.of_nat (length pool) <> 0%N) by lia.
      pose proof (N.mod_lt (entropy s) _ H). lia. }
    destruct (nth_error pool j) as [a|] eqn:Ea.
    2:{ apply nth_error_None in Ea. lia. }
    destruct (nth_error_pick pool j a Ea) as [Hp Hl].
    destruct (IH (firstn j pool ++ skipn (S j) pool) (S s)) as
      (l & rest & E & Hlen & Hperm); [lia|].
    exists (a :: l), rest. unfold bind. rewrite E. cbn [ret].
    replace (S s + k)%nat with (s + S k)%nat by lia.
    repeat split; [simpl; lia|].
    cbn [app]. rewrite Hp. constructor. exact Hperm.
Qed.

Lemma sample_ok entropy {A} (population : list A) (k : Z) s :
  (0 <= k <= Z.of_nat (length population))%Z ->
  exists l rest,
    sample entropy population k s = Ok (l, (s + Z.to_nat k)%nat) /\
    Z.of_nat (length l) = k /\ Permutation (l ++ rest) population.
Proof.
  intro Hk. unfold sample.
  replace ((k <? 0) || (Z.of_nat (length population) <? k))%Z with false
    by (symmetry; apply orb_false_iff; split; apply Z.ltb_ge; lia).
  destruct (sample_loop_ok entropy (Z.to_nat k) population s) as
    (l & rest & E & Hl & Hp); [lia|].
  exists l, rest. repeat split; auto. lia.
Qed.

Lemma sample_raises entropy {A} (population : list A) (k : Z) s :
  (k < 0 \/ Z.of_nat (length population) < k)%Z ->
  sample entropy population k s = Raise (ValueError SampleLargerOrNegative).
Proof.
  intro Hk. unfold sample.
  replace ((k <? 0) || (Z.of_nat (length population) <? k))%Z with true.
  - reflexivity.
  - symmetry. apply orb_true_iff. rewrite !Z.ltb_lt. exact Hk.
Qed.

Lemma sample_inv entropy {A} (population : list A) (k : Z) s l s' :
  sample entropy population k s = Ok (l, s') ->
  (0 <= k <= Z.of_nat (length population))%Z /\
  Z.of_nat (length l) = k /\
  exists rest, Permutation (l ++ rest) population.
Proof.
  intro H.
  assert (Hk : (0 <= k <= Z.of_nat (length population))%Z).
  { destruct (Z_lt_ge_dec k 0) as [L|G];
      [rewrite sample_raises in H by auto; discriminate|].
    destruct (Z_lt_ge_dec (Z.of_nat (length population)) k) as [L|G'];
      [rewrite sample_raises in H by auto; discriminate|]. lia. }
  destruct (sample_ok entropy population k s Hk) as (l' & rest & E & Hl & Hp).
  rewrite E in H. inversion H; subst. eauto.
Qed.

(** ** Population factory *)

Lemma replicateM_total {A} (act : M A) (P : A -> Prop) (d : nat) :
  (forall s, exists a, act s = Ok (a, (s + d)%nat) /\ P a) ->
  forall n s, exists l,
    replicateM n act s = Ok (l, (s + n * d)%nat) /\
    length l = n /\ Forall P l.
Proof.
  intros Hact n. induction n as [|n IH]; intro s.
  - exists []. cbn. rewrite Nat.add_0_r. auto.
  - cbn [replicateM]. unfold bind at 1.
    destruct (Hact s) as (a & -> & Ha).
    destruct (IH (s + d)%nat) as (l & E & Hl & Hf).
    unfold bind. rewrite E. cbn [ret].
    exists (a :: l).
    replace (s + S n * d)%nat with (s + d + n * d)%nat by (simpl; lia).
    split; [reflexivity|].
    split; [simpl; lia | constructor; assumption].
Qed.

Lemma createPopulation_total entropy r nd n s :
  exists l,
    __createPopulation entropy r nd n s = Ok (l, (s + Z.to_nat n * 2)%nat) /\
    length l = Z.to_nat n /\
    Forall (fun f => fitness f = None) l.
Proof.
  apply replicateM_total. clear s. intro s.
  eexists. split.
  - unfold bind, uniform, bind, random, ret.
    replace (s + 2)%nat with (S (S s)) by lia. reflexivity.
  - reflexivity.
Qed.

(** ** Best candidate *)

Lemma fitness_le_trans a b d :
  fitness_le a b -> fitness_le b d -> fitness_le a d.
Proof.
  intros (u & v & Eu & Ev & H1) (v' & w & Ev' & Ew & H2).
  rewrite Ev in Ev'. inversion Ev'; subst v'.
  exists u, w. repeat split; auto. eapply Qcle_trans; eassumption.
Qed.

Lemma key_lt_scored a b :
  (exists u, fitness a = Some u) -> (exists v, fitness b = Some v) ->
  (key_lt a b = Ok true /\ fitness_le a b) \/
  (key_lt a b = Ok false /\ fitness_le b a).
Proof.
  intros (u & Eu) (v & Ev). unfold key_lt. rewrite Eu, Ev.
  destruct (Qcltb u v) eqn:E.
  - left. split; [reflexivity|]. exists u, v. repeat split; auto.
    apply Qclt_le_weak, Qcltb_lt, E.
  - right. split; [reflexivity|]. exists v, u. repeat split; auto.
    apply Qcltb_ge, E.
Qed.

Lemma key_lt_not_below a b : fitness_le a b -> key_lt b a = Ok false.
Proof.
  intros (u & v & Eu & Ev & H). unfold key_lt. rewrite Eu, Ev.
  f_equal. apply Qcltb_ge. exact H.
Qed.

Lemma insert_by_fitness_sorted a l :
  (exists u, fitness a = Some u) -> scored l ->
  StronglySorted fitness_le l ->
  exists l',
    insert_by_fitness a l = Ok l' /\ Permutation l' (a :: l) /\
    StronglySorted fitness_le l' /\ scored l'.
Proof.
  intros Ha Hl Hs. induction Hl as [|b t Hb Ht IH].
  - exists [a]. cbn. repeat split; auto.
    + constructor; constructor.
    + constructor; [exact Ha | constructor].
  - apply StronglySorted_inv in Hs. destruct Hs as [Hs Hall].
    cbn [insert_by_fitness].
    destruct (key_lt_scored b a Hb Ha) as [[E Hle]|[E Hle]];
      rewrite E; cbn [rbind].
    + destruct (IH Hs) as (t' & -> & Hp & Hs' & Hsc). cbn [rbind].
      exists (b :: t'). split; [reflexivity|]. split; [|split].
      * rewrite Hp. apply perm_swap.
      * constructor; [exact Hs'|].
        apply Forall_forall. intros z Hz.
        apply (Permutation_in _ Hp) in Hz. destruct Hz as [<-|Hz];
          [exact Hle|].
        rewrite Forall_forall in Hall. apply Hall. exact Hz.
      * constructor; assumption.
    + exists (a :: b :: t). split; [reflexivity|]. split; [reflexivity|].
      split.
      * constructor; [constructor; assumption|].
        constructor; [exact Hle|].
        apply Forall_forall. intros z Hz.
        rewrite Forall_forall in Hall.
        eapply fitness_le_trans; [exact Hle | apply Hall; exact Hz].
      * constructor; [exact Ha|]. constructor; assumption.
Qed.

Lemma sorted_by_fitness_ok l :
  scored l ->
  exists l',
    sorted_by_fitness l = Ok l' /\ Permutation l' l /\
    StronglySorted fitness_le l' /\ scored l'.
Proof.
  intro Hl. induction Hl as [|a t Ha Ht IH].
  - exists []. cbn. repeat split; constructor.
  - destruct IH as (t' & E & Hp & Hs & Hsc).
    cbn [sorted_by_fitness]. rewrite E. cbn [rbind].
    destruct (insert_by_fitness_sorted a t' Ha Hsc Hs)
      as (l' & E' & Hp' & Hs' & Hsc').
    exists l'. split; [exact E'|]. split; [|auto].
    rewrite Hp'. constructor. exact Hp.
Qed.

Lemma best_nil : __best [] = Raise IndexError.
Proof. reflexivity. Qed.

Lemma best_ok l :
  scored l -> l <> [] -> exists b, __best l = Ok b /\ is_best b l.
Proof.
  intros Hl Hne.
  destruct (sorted_by_fitness_ok l Hl) as (l' & E & Hp & Hs & Hsc).
  unfold __best. rewrite E. cbn [rbind].
  destruct l' as [|b t].
  - apply Permutation_nil in Hp. contradiction.
  - exists b. split; [reflexivity|]. split.
    + apply (Permutation_in _ Hp). left. reflexivity.
    + intros a Ha. apply (Permutation_in _ (Permutation_sym Hp)) in Ha.
      apply StronglySorted_inv in Hs. destruct Hs as [_ Hall].
      destruct Ha as [<-|Ha].
      * inversion Hsc as [|? ? (u & Eu) _]; subst.
        exists u, u. repeat split; auto. apply Qcle_refl.
      * rewrite Forall_forall in Hall. apply Hall. exact Ha.
Qed.

Lemma best_inv l b : scored l -> __best l = Ok b -> is_best b l.
Proof.
  intros Hl E. destruct l as [|a t]; [discriminate|].
  destruct (best_ok (a :: t) Hl ltac:(discriminate)) as (b' & E' & H).
  rewrite E in E'. inversion E'; subst. exact H.
Qed.

(** [sorted] is stable: a first member that nobody beats stays first. *)
Lemma best_head a t :
  scored (a :: t) -> (forall z, In z t -> fitness_le a z) ->
  __best (a :: t) = Ok a.
Proof.
  intros Hl Hmin. inversion Hl as [|? ? Ha Ht]; subst.
  destruct (sorted_by_fitness_ok t Ht) as (t' & E & Hp & _ & _).
  unfold __best. cbn [sorted_by_fitness]. rewrite E. cbn [rbind].
  destruct t' as [|b t0]; [reflexivity|].
  cbn [insert_by_fitness].
  rewrite (key_lt_not_below a b).
  - reflexivity.
  - apply Hmin. apply (Permutation_in _ Hp). left. reflexivity.
Qed.

(** ** Fitness evaluator *)

Lemma rmapM_total {A B} (f : A -> result B) (g : A -> B) (l : list A) :
  (forall a, In a l -> f a = Ok (g a)) -> rmapM f l = Ok (map g l).
Proof.
  induction l as [|a t IH]; intro H; cbn; [reflexivity|].
  rewrite (H a (or_introl eq_refl)). cbn [rbind].
  rewrite IH by (intros; apply H; right; assumption). reflexivity.
Qed.

Lemma score_bound (g : HyperParams) candidate data :
  __score (Some g) candidate data = Ok (spec_score candidate data (dps g)).
Proof.
  unfold __score, spec_score.
  rewrite (rmapM_total _
             (fun datapoint =>
                Qcabs (py_round
                         (y datapoint
                          - (m candidate * x datapoint + c candidate))%Qc
                         (dps g)))).
  - reflexivity.
  - intros; reflexivity.
Qed.

Lemma score_no_data module candidate :
  __score module candidate [] = Ok (Z2Qc 0).
Proof. reflexivity. Qed.

Lemma score_unbound candidate datapoint data :
  __score None candidate (datapoint :: data) = Raise NameError.
Proof. reflexivity. Qed.

Lemma scorePopulation_bound (g : HyperParams) population data hp :
  __scorePopulation (Some g) population data hp
  = Ok (map (fun candidate =>
               with_score (spec_score candidate data (dps g)) candidate)
            population).
Proof.
  unfold __scorePopulation. apply rmapM_total. intros candidate _.
  unfold with_score. destruct (truthy (fitness candidate)).
  - reflexivity.
  - rewrite score_bound. reflexivity.
Qed.

Lemma scorePopulation_no_data module population hp :
  __scorePopulation module population [] hp
  = Ok (map (with_score (Z2Qc 0)) population).
Proof.
  unfold __scorePopulation. apply rmapM_total. intros candidate _.
  unfold with_score. destruct (truthy (fitness candidate)); reflexivity.
Qed.

Lemma map_with_score_scored (score_of : Formula -> Qc) population :
  scored (map (fun candidate => with_score (score_of candidate) candidate)
              population).
Proof.
  apply Forall_forall. intros f Hf. apply in_map_iff in Hf.
  destruct Hf as (candidate & <- & _). unfold with_score. cbn [fitness].
  destruct (fitness candidate) as [u|] eqn:E; cbn [truthy].
  - destruct (negb (Qc_eq_bool u (Z2Qc 0))); eauto.
  - eauto.
Qed.

Lemma Qc_eq_bool_refl (q : Qc) : Qc_eq_bool q q = true.
Proof.
  unfold Qc_eq_bool. destruct (Qc_eq_dec q q); [reflexivity | contradiction].
Qed.

Lemma with_score_unscored v candidate :
  fitness candidate = None ->
  with_score v candidate = mkFormula (m candidate) (c candidate) (Some v).
Proof. intro H. unfold with_score. rewrite H. reflexivity. Qed.
(** C7, at the candidate (0, 0) and the single observation (0, 1.26),
    with a precision of 1 in the hyperparameters passed to the call.
    When the module has no [hyperParams] of its own the scoring raises
    [NameError]; when the module's [hyperParams] has precision 0 the
    fitness is [|round(1.26, 0)| = 1] and not [|round(1.26, 1)| = 1.3],
    the sum at the precision passed. *)
Theorem score_reads_module_precision :
  __scorePopulation None [lineFormula 0 0 None] data_126 (hp_dps 1)
  = Raise NameError /\
  __scorePopulation (Some (hp_dps 0)) [lineFormula 0 0 None] data_126
                  (hp_dps 1)
  = Ok [mkFormula (Z2Qc 0) (Z2Qc 0) (Some (Z2Qc 1))] /\
  spec_score (lineFormula 0 0 None) data_126 (dps (hp_dps 1))
  = Q2Qc (13 # 10).
Proof.
  split; [reflexivity|]. split.
  - decide_eq (result_eq_dec (list_eq_dec Formula_eq_dec)).
  - decide_eq Qc_eq_dec.
Qed.

(** ** Selector *)

Lemma scored_sub (l rest population : list Formula) :
  Permutation (l ++ rest) population -> scored population -> scored l.
Proof.
  intros Hp Hs. apply Forall_forall. intros f Hf.
  unfold scored in Hs. rewrite Forall_forall in Hs. apply Hs.
  apply (Permutation_in _ Hp). apply in_or_app. left. exact Hf.
Qed.

Lemma tournament_ok entropy population hp s :
  scored population ->
  (1 <= tournamentSample hp <= Z.of_nat (length population))%Z ->
  exists b,
    (do contestants <- sample entropy population (tournamentSample hp);
     lift (__best contestants)) s
    = Ok (b, (s + Z.to_nat (tournamentSample hp))%nat) /\
    won_tournament population (tournamentSample hp) b.
Proof.
  intros Hs Hk.
  destruct (sample_ok entropy population (tournamentSample hp) s)
    as (contestants & rest & E & Hl & Hp); [lia|].
  assert (Hsc : scored contestants) by (eapply scored_sub; eassumption).
  destruct (best_ok contestants Hsc) as (b & Eb & Hb).
  { intros ->. cbn in Hl. lia. }
  exists b. unfold bind. rewrite E, Eb. cbn [lift].
  split; [reflexivity|]. exists contestants, rest. auto.
Qed.

Lemma selectPopulation_ok entropy population hp s :
  scored population ->
  (1 <= tournamentSample hp <= Z.of_nat (length population))%Z ->
  exists elite,
    __selectPopulation entropy population hp s
    = Ok (elite, (s + Z.to_nat (tournamentCount hp)
                      * Z.to_nat (tournamentSample hp))%nat) /\
    length elite = Z.to_nat (tournamentCount hp) /\
    Forall (won_tournament population (tournamentSample hp)) elite.
Proof.
  intros Hs Hk. unfold __selectPopulation.
  apply replicateM_total. intro s0. apply tournament_ok; assumption.
Qed.

Lemma selectPopulation_empty_sample entropy population hp s :
  tournamentSample hp = 0%Z ->
  __selectPopulation entropy population hp s
  = if (1 <=? tournamentCount hp)%Z then Raise IndexError else Ok ([], s).
Proof.
  intro Hk. unfold __selectPopulation. rewrite Hk.
  destruct (Z.leb_spec 1 (tournamentCount hp)) as [H|H].
  - destruct (Z.to_nat (tournamentCount hp)) as [|n] eqn:En; [lia|].
    cbn [replicateM]. unfold bind at 1. unfold bind at 1.
    unfold sample. cbn [Z.ltb Z.compare orb].
    replace (Z.of_nat (length population) <? 0)%Z with false
      by (symmetry; apply Z.ltb_ge; lia).
    reflexivity.
  - replace (Z.to_nat (tournamentCount hp)) with 0%nat by lia.
    reflexivity.
Qed.

Lemma won_tournament_In population k b :
  won_tournament population k b -> In b population.
Proof.
  intros (contestants & rest & _ & Hp & Hin & _).
  apply (Permutation_in _ Hp). apply in_or_app. left. exact Hin.
Qed.

Lemma tournamentSample_half_even hp :
  tournamentSample hp = half_even (Z2Qc (popSize hp) * tournamentSize hp)%Qc.
Proof. apply py_int_py_round_0. Qed.

Lemma tournamentCount_half_even hp :
  tournamentCount hp = half_even (Z2Qc (popSize hp) * goldenSize hp)%Qc.
Proof. apply py_int_py_round_0. Qed.

Lemma tournamentSample_range hp :
  valid_selection hp -> (0 <= tournamentSample hp <= popSize hp)%Z.
Proof.
  intros (Hp & H0 & H1). rewrite tournamentSample_half_even.
  assert (HP : (Z2Qc 0 <= Z2Qc (popSize hp))%Qc) by (apply Z2Qc_le; lia).
  split.
  - apply half_even_ge. change (Z2Qc 0) with 0%Qc in *.
    replace 0%Qc with (0 * tournamentSize hp)%Qc by ring.
    apply Qcmult_le_compat_r; [exact HP | apply Qclt_le_weak; exact H0].
  - apply half_even_le.
    rewrite <- (Qcmult_1_r (Z2Qc (popSize hp))) at 2.
    rewrite (Qcmult_comm (Z2Qc (popSize hp)) (tournamentSize hp)).
    rewrite (Qcmult_comm (Z2Qc (popSize hp)) 1%Qc).
    apply Qcmult_le_compat_r; [exact H1 | exact HP].
Qed.
Lemma lineFormula_scored (l : list (Z * Z * Z)) :
  scored (map (fun t => lineFormula (fst (fst t)) (snd (fst t))
                                    (Some (snd t))) l).
Proof.
  apply Forall_forall. intros f Hf. apply in_map_iff in Hf.
  destruct Hf as (t & <- & _). cbn. eauto.
Qed.

(** C10, as stated, fails: with [popSize = 5] and a tournament fraction
    of 0.08, both in their documented ranges, the sample size is
    [round(0.4) = 0], it is not clamped, and the selection of a scored
    population of five raises [IndexError]. *)
Lemma selection_fails_on_empty_sample :
  valid_selection hp_sparse /\
  scored population_five /\
  Z.of_nat (length population_five) = popSize hp_sparse /\
  tournamentSample hp_sparse = 0%Z /\
  __selectPopulation example_draws population_five hp_sparse 0%nat
  = Raise IndexError /\
  ~ selection_succeeds example_draws population_five hp_sparse 0%nat.
Proof.
  assert (E : __selectPopulation example_draws population_five hp_sparse 0%nat
              = Raise IndexError).
  { rewrite selectPopulation_empty_sample by (vm_compute; reflexivity).
    reflexivity. }
  split; [|split; [|split; [|split; [|split]]]].
  - split; [|split]; vm_compute; congruence.
  - apply (lineFormula_scored [(1, 1, 1); (2, 2, 2); (3, 3, 3);
                               (4, 4, 4); (5, 5, 5)]%Z).
  - reflexivity.
  - vm_compute. reflexivity.
  - exact E.
  - intros (elite & s' & H). rewrite E in H. discriminate.
Qed.

(** C10, amended: for parameters in their documented ranges and a scored
    population of [popSize] members, every tournament draws exactly
    [round(popSize * tournamentSize)] contestants, ties rounded to even
    and nothing clamped, a number between 0 and [popSize].  When it is at
    least 1 the selection succeeds, with [round(popSize * goldenSize)]
    winners, each of minimal fitness among its contestants.  When it is 0
    the selection raises [IndexError] as soon as one tournament is held. *)
Theorem selection_sample_size :
  forall (entropy : nat -> N) (population : list Formula)
         (hp : HyperParams) (s : cursor),
    valid_selection hp ->
    scored population ->
    Z.of_nat (length population) = popSize hp ->
    tournamentSample hp
    = half_even (Z2Qc (popSize hp) * tournamentSize hp)%Qc /\
    (0 <= tournamentSample hp <= popSize hp)%Z /\
    if (1 <=? tournamentSample hp)%Z
    then exists elite s',
        __selectPopulation entropy population hp s = Ok (elite, s') /\
        length elite = Z.to_nat (tournamentCount hp) /\
        Forall (won_tournament population (tournamentSample hp)) elite
    else __selectPopulation entropy population hp s
         = if (1 <=? tournamentCount hp)%Z then Raise IndexError
           else Ok ([], s).
Proof.
  intros entropy population hp s Hv Hs Hl.
  pose proof (tournamentSample_range hp Hv) as Hr.
  split; [apply tournamentSample_half_even|]. split; [exact Hr|].
  destruct (Z.leb_spec 1 (tournamentSample hp)) as [H|H].
  - destruct (selectPopulation_ok entropy population hp s Hs)
      as (elite & E & Hlen & Hall); [lia|].
    eauto.
  - apply selectPopulation_empty_sample. lia.
Qed.

Lemma selection_sample_size_witness :
  tournamentSample hp_pair
  = half_even (Z2Qc (popSize hp_pair) * tournamentSize hp_pair)%Qc /\
  (0 <= tournamentSample hp_pair <= popSize hp_pair)%Z /\
  if (1 <=? tournamentSample hp_pair)%Z
  then exists elite s',
      __selectPopulation example_draws population_pair hp_pair 0%nat
      = Ok (elite, s') /\
      length elite = Z.to_nat (tournamentCount hp_pair) /\
      Forall (won_tournament population_pair (tournamentSample hp_pair))
             elite
  else __selectPopulation example_draws population_pair hp_pair 0%nat
       = if (1 <=? tournamentCount hp_pair)%Z then Raise IndexError
         else Ok ([], 0%nat).
Proof.
  apply (selection_sample_size example_draws population_pair hp_pair 0%nat).
  - split; [|split]; vm_compute; congruence.
  - apply (lineFormula_scored [(1, 2, 2); (4, 5, 5)]%Z).
  - reflexivity.
Defined.

(** ** Mutator *)

Lemma mutate_loop_unchanged entropy children hp acc s :
  exists s',
    mutate_loop entropy children hp acc s =
    Ok (fold_left (fun a ch => set_add Formula_eq_dec (unscored ch) a)
                  children acc, s').
Proof.
  revert acc s. induction children as [|child rest IH]; intros acc s.
  - eexists. reflexivity.
  - cbn [mutate_loop fold_left]. unfold bind at 1.
    destruct (random_range entropy s) as (u & -> & _ & _).
    unfold bind at 1.
    destruct (Qcltb u (mutProb hp)).
    + unfold bind at 1.
      destruct (random_range entropy (S s)) as (v & -> & Hv0 & Hv1).
      rewrite (centred_draw_rounds_to_zero v Hv0 Hv1).
      unfold bind at 1.
      destruct (random_range entropy (S (S s))) as (w & -> & _ & _).
      change (Z2Qc 0) with 0%Qc.
      replace (m child + mutVal hp * 0)%Qc with (m child) by ring.
      replace (c child + mutVal hp * 0)%Qc with (c child) by ring.
      destruct (Qcltb w (Q2Qc (1 # 2))); cbn [ret fst snd]; apply IH.
    + cbn [ret fst snd]. apply IH.
Qed.

Lemma mutate_unchanged entropy children hp s :
  exists s',
    __mutate entropy children hp s =
    Ok (py_set Formula_eq_dec (map unscored children), s').
Proof.
  unfold __mutate, py_set.
  destruct (mutate_loop_unchanged entropy children hp (empty_set Formula) s)
    as (s' & ->).
  exists s'. do 2 f_equal.
  generalize (empty_set Formula).
  induction children as [|ch rest IH]; intro acc; cbn; auto.
Qed.

(** C4: whatever the children, the hyperparameters and the random draws,
    the direction [round(random() - 0.5, 0)] is zero, since [random()]
    lies in [[0, 1)]; so the mutator never raises and returns, as a set,
    exactly the input children with [m] and [c] unchanged and the
    fitness unset. *)
Theorem mutate_is_identity_on_m_and_c :
  forall (entropy : nat -> N) (hp : HyperParams),
    (forall s, exists v,
        random entropy s = Ok (v, S s) /\
        py_round (v - Q2Qc (1 # 2)) 0 = Z2Qc 0) /\
    (forall children s, exists out s',
        __mutate entropy children hp s = Ok (out, s') /\
        NoDup out /\
        forall f, In f out <->
                  exists child, In child children /\
                                f = mkFormula (m child) (c child) None).
Proof.
  intros entropy hp. split.
  - intro s. destruct (random_range entropy s) as (v & E & H0 & H1).
    exists v. split; [exact E|]. apply centred_draw_rounds_to_zero; assumption.
  - intros children s.
    destruct (mutate_unchanged entropy children hp s) as (s' & E).
    exists (py_set Formula_eq_dec (map unscored children)), s'.
    split; [exact E|]. split; [apply py_set_NoDup|].
    intro f. rewrite py_set_In, in_map_iff. unfold unscored.
    split; intros (ch & H1 & H2); exists ch; auto.
Qed.

Lemma mutation_example :
  __mutate (draws []) [lineFormula 1 2 None] hp_mutation 0%nat
  = Ok ([lineFormula 1 2 None], 3%nat).
Proof. decide_eq (run_eq_dec (list_eq_dec Formula_eq_dec)). Qed.

(** C3, as stated, fails: with [mutProb = 1.0] and [mutVal = 5] the child
    (1, 2) comes out of the mutator as (1, 2). *)
Lemma mutation_magnitude_fails :
  ~ mutation_magnitude (draws []) hp_mutation [lineFormula 1 2 None] 0%nat.
Proof.
  intro H.
  destruct (H _ _ mutation_example (lineFormula 1 2 None) (or_introl eq_refl))
    as (child & [<-|[]] & Hm).
  destruct Hm as [[[E|E] _]|[_ [E|E]]]; refute_eq Qc_eq_dec E.
Qed.

(** C3, amended: with [mutProb = 1.0] and [mutVal = 5], every output of the
    mutator has its fitness unset and is an input child with
    [mutVal * direction] added to one of [m] and [c] and the other one
    untouched, for a direction among -1, 0 and +1. *)
Theorem mutation_steps_one_coordinate :
  forall (entropy : nat -> N) (hp : HyperParams) (children : list Formula)
         (s : cursor) (out : list Formula) (s' : cursor) (f : Formula),
    mutProb hp = Z2Qc 1 ->
    mutVal hp = Z2Qc 5 ->
    __mutate entropy children hp s = Ok (out, s') ->
    In f out ->
    fitness f = None /\
    exists child, In child children /\ stepped_by (mutVal hp) child f.
Proof.
  intros entropy hp children s out s' f _ _ Hrun Hin.
  destruct (mutate_unchanged entropy children hp s) as (s1 & E).
  rewrite E in Hrun. inversion Hrun; subst out s1; clear Hrun.
  apply py_set_In, in_map_iff in Hin. destruct Hin as (child & <- & Hin).
  split; [reflexivity|].
  exists child. split; [exact Hin|].
  exists 0%Z. split; [lia|]. left. cbn [unscored m c].
  change (Z2Qc 0) with 0%Qc. split; [ring | reflexivity].
Qed.

Lemma mutation_steps_one_coordinate_witness :
  fitness (lineFormula 1 2 None) = None /\
  exists child, In child [lineFormula 1 2 None] /\
                stepped_by (mutVal hp_mutation) child (lineFormula 1 2 None).
Proof.
  apply (mutation_steps_one_coordinate (draws []) hp_mutation
           [lineFormula 1 2 None] 0%nat [lineFormula 1 2 None] 3%nat
           (lineFormula 1 2 None) eq_refl eq_refl).
  - decide_eq (run_eq_dec (list_eq_dec Formula_eq_dec)).
  - left. reflexivity.
Defined.

(** ** Breeder *)

Lemma potentialChildren_In (population : list Formula) (f : Formula) :
  In f (__potentialChildren population) <->
  fitness f = None /\
  ((In (m f) (map m population) /\ In (c f) (map c population)) \/
   (In (m f) (map c population) /\ In (c f) (map m population))).
Proof.
  unfold __potentialChildren. rewrite in_map_iff. split.
  - intros ([a b] & <- & H). cbn [fst snd m c fitness].
    split; [reflexivity|].
    apply py_set_In, in_app_or in H. destruct H as [H|H].
    + apply in_map_iff in H. destruct H as ([a' b'] & E & H).
      cbn [fst snd] in E. inversion E; subst.
      apply in_prod_iff in H. right. tauto.
    + apply in_prod_iff in H. left. exact H.
  - intros (Hf & H). exists (m f, c f). split.
    + destruct f as [a b fit]. cbn in *. subst. reflexivity.
    + apply py_set_In, in_or_app. destruct H as [H|H].
      * right. apply in_prod_iff. exact H.
      * left. apply in_map_iff. exists (c f, m f). split; [reflexivity|].
        apply in_prod_iff. tauto.
Qed.

Lemma NoDup_map_injective {A B} (f : A -> B) (l : list A) :
  (forall a b, f a = f b -> a = b) -> NoDup l -> NoDup (map f l).
Proof.
  intros Hinj Hl. induction Hl as [|a t Hnin Ht IH]; cbn; constructor.
  - intro Hin. apply in_map_iff in Hin. destruct Hin as (b & E & Hb).
    apply Hinj in E. subst b. contradiction.
  - exact IH.
Qed.

Lemma potentialChildren_NoDup (population : list Formula) :
  NoDup (__potentialChildren population).
Proof.
  unfold __potentialChildren. apply NoDup_map_injective.
  - intros [a1 b1] [a2 b2] E. cbn in E. inversion E. reflexivity.
  - apply py_set_NoDup.
Qed.






Lemma breedPopulation_inv entropy population hp s pop' s' :
  __breedPopulation entropy population hp s = Ok (pop', s') ->
  exists children s1 mutated s2 newcomers,
    sample entropy (__potentialChildren population)
           (childTarget (__potentialChildren population) population hp) s
    = Ok (children, s1) /\
    __mutate entropy children hp s1 = Ok (mutated, s2) /\
    __createPopulation entropy (mcrange hp) (dps hp)
      (popSize hp
       - (Z.of_nat (length children) + Z.of_nat (length population))) s2
    = Ok (newcomers, s') /\
    pop' = population ++ children ++ newcomers /\
    Z.of_nat (length pop') = popSize hp.
Proof.
  unfold __breedPopulation. cbv zeta. intro H.
  apply bind_Ok in H. destruct H as (children & s1 & E1 & H).
  apply bind_Ok in H. destruct H as (mutated & s2 & E2 & H).
  apply bind_Ok in H. destruct H as (newcomers & s3 & E3 & H).
  destruct (Z.eqb_spec
              (Z.of_nat (length (population ++ children ++ newcomers)))
              (popSize hp)) as [El|El].
  - inversion H; subst. exists children, s1, mutated, s2, newcomers. auto.
  - unfold lift in H. discriminate.
Qed.

Lemma breedPopulation_assembled entropy population hp s
      children s1 mutated s2 newcomers s3 :
  sample entropy (__potentialChildren population)
         (childTarget (__potentialChildren population) population hp) s
  = Ok (children, s1) ->
  __mutate entropy children hp s1 = Ok (mutated, s2) ->
  __createPopulation entropy (mcrange hp) (dps hp)
    (popSize hp
     - (Z.of_nat (length children) + Z.of_nat (length population))) s2
  = Ok (newcomers, s3) ->
  __breedPopulation entropy population hp s =
  if (Z.of_nat (length (population ++ children ++ newcomers))
      =? popSize hp)%Z
  then Ok (population ++ children ++ newcomers, s3)
  else Raise (ValueError
                (PopulationLength
                   (Z.of_nat (length (population ++ children ++ newcomers)))
                   (popSize hp))).
Proof.
  intros E1 E2 E3. unfold __breedPopulation. cbv zeta.
  unfold bind at 1. rewrite E1. unfold bind at 1. rewrite E2.
  unfold bind at 1. rewrite E3.
  destruct (Z.of_nat (length (population ++ children ++ newcomers))
            =? popSize hp)%Z; reflexivity.
Qed.

(** C8: every generation the breeder returns has exactly [popSize]
    members.  Once the generation is assembled from the elite, the sampled
    children and the immigrants, the breeder returns it as it is, neither
    cut nor padded, when its size is [popSize]; when the size differs it
    raises its fatal error, the [ValueError] on the population length,
    and tries nothing else. *)
Theorem breeder_population_size :
  forall (entropy : nat -> N) (population : list Formula)
         (hp : HyperParams) (s : cursor),
    (forall pop' s',
        __breedPopulation entropy population hp s = Ok (pop', s') ->
        Z.of_nat (length pop') = popSize hp) /\
    (forall children s1 mutated s2 newcomers s3,
        sample entropy (__potentialChildren population)
               (childTarget (__potentialChildren population) population hp) s
        = Ok (children, s1) ->
        __mutate entropy children hp s1 = Ok (mutated, s2) ->
        __createPopulation entropy (mcrange hp) (dps hp)
          (popSize hp
           - (Z.of_nat (length children) + Z.of_nat (length population))) s2
        = Ok (newcomers, s3) ->
        __breedPopulation entropy population hp s =
        if (Z.of_nat (length (population ++ children ++ newcomers))
            =? popSize hp)%Z
        then Ok (population ++ children ++ newcomers, s3)
        else Raise (ValueError
                      (PopulationLength
                         (Z.of_nat
                            (length (population ++ children ++ newcomers)))
                         (popSize hp)))).
Proof.
  intros entropy population hp s. split.
  - intros pop' s' H.
    destruct (breedPopulation_inv _ _ _ _ _ _ H)
      as (? & ? & ? & ? & ? & _ & _ & _ & _ & Hl).
    exact Hl.
  - apply breedPopulation_assembled.
Qed.

Lemma breeder_population_size_witness :
  Z.of_nat
    (length (elite_1234
             ++ [lineFormula 1 4 None; lineFormula 4 3 None;
                 lineFormula 4 1 None; lineFormula 2 3 None;
                 lineFormula 2 1 None; lineFormula 3 4 None]
             ++ [lineFormula 0 0 None; lineFormula 0 0 None]))
  = popSize hp_mutation /\
  __breedPopulation example_draws elite_three hp_oversized 0%nat
  = Raise (ValueError (PopulationLength 4 2)).
Proof.
  split.
  - apply (proj1 (breeder_population_size example_draws elite_1234
                    hp_mutation 0%nat) _ 28%nat).
    decide_eq (run_eq_dec (list_eq_dec Formula_eq_dec)).
  - apply (proj2 (breeder_population_size example_draws elite_three
                    hp_oversized 0%nat)
             [lineFormula 6 3 None] 1%nat [lineFormula 6 3 None] 4%nat
             [] 4%nat).
    + decide_eq (run_eq_dec (list_eq_dec Formula_eq_dec)).
    + decide_eq (run_eq_dec (list_eq_dec Formula_eq_dec)).
    + decide_eq (run_eq_dec (list_eq_dec Formula_eq_dec)).
Defined.

(** C2, at the elite (1,2), (3,4): the members of the breeder's pool are
    eight, the four pairs of the cross product and their four mirror
    images, which carry an elite [c] in the place of [m]; (2,1) is in
    the pool and not in the cross product, whose members are four. *)
Theorem pool_holds_swapped_pairs :
  Permutation (__potentialChildren elite_1234)
    [lineFormula 1 2 None; lineFormula 1 4 None; lineFormula 3 2 None;
     lineFormula 3 4 None; lineFormula 2 1 None; lineFormula 4 1 None;
     lineFormula 2 3 None; lineFormula 4 3 None] /\
  Permutation (spec_pool elite_1234)
    [lineFormula 1 2 None; lineFormula 1 4 None;
     lineFormula 3 2 None; lineFormula 3 4 None] /\
  In (lineFormula 2 1 None) (__potentialChildren elite_1234) /\
  ~ In (lineFormula 2 1 None) (spec_pool elite_1234).
Proof.
  assert (E1 : __potentialChildren elite_1234
               = [lineFormula 2 1 None; lineFormula 4 1 None;
                  lineFormula 2 3 None; lineFormula 4 3 None]
                 ++ [lineFormula 1 2 None; lineFormula 1 4 None;
                     lineFormula 3 2 None; lineFormula 3 4 None])
    by decide_eq (list_eq_dec Formula_eq_dec).
  assert (E2 : spec_pool elite_1234
               = [lineFormula 1 2 None; lineFormula 1 4 None;
                  lineFormula 3 2 None; lineFormula 3 4 None])
    by decide_eq (list_eq_dec Formula_eq_dec).
  split; [|split; [|split]].
  - rewrite E1. apply Permutation_app_comm.
  - rewrite E2. apply Permutation_refl.
  - rewrite E1. left. reflexivity.
  - rewrite E2. intros [E|[E|[E|[E|[]]]]]; refute_eq Formula_eq_dec E.
Qed.

Lemma childTarget_le_pool (pool population : list Formula) hp :
  (childTarget pool population hp <= Z.of_nat (length pool))%Z.
Proof.
  unfold childTarget.
  destruct (py_min_cases (Z2Qc (Z.of_nat (length pool)))
              (Z2Qc (popSize hp) * (Z2Qc 1 - immigrationSize hp)
               - Z2Qc (Z.of_nat (length population)))%Qc)
    as [[-> _]|[-> H]].
  - rewrite py_int_Z2Qc. lia.
  - apply py_int_le; [apply Qclt_le_weak; exact H | lia].
Qed.

Lemma childTarget_nonneg (pool population : list Formula) hp :
  (0 <= childTarget pool population hp)%Z <->
  (Z2Qc (-1) < Z2Qc (popSize hp) * (Z2Qc 1 - immigrationSize hp)
               - Z2Qc (Z.of_nat (length population)))%Qc.
Proof.
  unfold childTarget. rewrite py_int_nonneg.
  destruct (py_min_cases (Z2Qc (Z.of_nat (length pool)))
              (Z2Qc (popSize hp) * (Z2Qc 1 - immigrationSize hp)
               - Z2Qc (Z.of_nat (length population)))%Qc)
    as [[-> H]|[-> H]].
  - assert (H0 : (Z2Qc (-1) < Z2Qc (Z.of_nat (length pool)))%Qc)
      by (apply Z2Qc_lt; lia).
    split; intros _; [|exact H0].
    eapply Qclt_le_trans; eassumption.
  - reflexivity.
Qed.

Lemma breedPopulation_negative_target entropy population hp s :
  (childTarget (__potentialChildren population) population hp < 0)%Z ->
  __breedPopulation entropy population hp s
  = Raise (ValueError SampleLargerOrNegative).
Proof.
  intro H. unfold __breedPopulation. cbv zeta. unfold bind at 1.
  rewrite sample_raises by (left; exact H). reflexivity.
Qed.

Lemma quota_le_popSize (hp : HyperParams) :
  (0 <= popSize hp)%Z ->
  (Z2Qc 0 <= immigrationSize hp)%Qc ->
  (Z2Qc (popSize hp) * (Z2Qc 1 - immigrationSize hp)
   <= Z2Qc (popSize hp))%Qc.
Proof.
  intros HP Himm.
  assert (H1 : (Z2Qc 1 - immigrationSize hp <= Z2Qc 1)%Qc) by qc_linear.
  assert (H2 : (Z2Qc 0 <= Z2Qc (popSize hp))%Qc) by (apply Z2Qc_le; exact HP).
  pose proof (Qcmult_le_compat_r _ _ _ H1 H2) as H.
  change (Z2Qc 1) with 1%Qc in H at 2. rewrite Qcmult_1_l in H.
  rewrite Qcmult_comm. exact H.
Qed.

Lemma childTarget_room (pool population : list Formula) (hp : HyperParams) :
  (0 <= popSize hp)%Z ->
  (Z2Qc 0 <= immigrationSize hp)%Qc ->
  (0 <= childTarget pool population hp)%Z ->
  (childTarget pool population hp + Z.of_nat (length population)
   <= popSize hp)%Z.
Proof.
  intros HP Himm Hk.
  pose proof (quota_le_popSize hp HP Himm) as Hq.
  pose proof (proj1 (childTarget_nonneg pool population hp) Hk) as Hgt.
  set (g := Z.of_nat (length population)) in *.
  set (quota := (Z2Qc (popSize hp) * (Z2Qc 1 - immigrationSize hp))%Qc) in *.
  assert (Hfloor : (Z2Qc 0 <= quota - Z2Qc g)%Qc ->
                   (Z2Qc (childTarget pool population hp) <= quota - Z2Qc g)%Qc).
  { intro H0. unfold childTarget. fold g. fold quota.
    destruct (py_min_cases (Z2Qc (Z.of_nat (length pool)))
                           (quota - Z2Qc g)%Qc) as [[-> H]|[-> H]].
    - rewrite py_int_Z2Qc. exact H.
    - apply py_int_floor. exact H0. }
  destruct (Qclt_le_dec (quota - Z2Qc g)%Qc (Z2Qc 0)) as [Hneg|Hpos].
  - assert (Hk0 : (childTarget pool population hp <= 0)%Z).
    { unfold childTarget. fold g. fold quota. apply py_int_le; [|lia].
      destruct (py_min_cases (Z2Qc (Z.of_nat (length pool)))
                             (quota - Z2Qc g)%Qc) as [[-> H]|[-> H]].
      - eapply Qcle_trans; [exact H | apply Qclt_le_weak; exact Hneg].
      - apply Qclt_le_weak; exact Hneg. }
    assert (Hg : (Z2Qc g < Z2Qc (popSize hp + 1))%Qc).
    { rewrite Z2Qc_plus. clear Hfloor Hk0. clearbody quota g. qc_linear. }
    apply (proj1 (Z2Qc_lt _ _)) in Hg. lia.
  - specialize (Hfloor Hpos). apply Z2Qc_le. rewrite Z2Qc_plus.
    set (k := childTarget pool population hp) in *.
    clearbody k quota g. qc_linear.
Qed.

Lemma breedPopulation_ok entropy population hp s :
  (0 <= popSize hp)%Z ->
  (Z2Qc 0 <= immigrationSize hp)%Qc ->
  (Z2Qc (-1) < Z2Qc (popSize hp) * (Z2Qc 1 - immigrationSize hp)
               - Z2Qc (Z.of_nat (length population)))%Qc ->
  exists base s',
    __breedPopulation entropy population hp s = Ok (base, s') /\
    Z.of_nat (length base) = popSize hp.
Proof.
  intros HP Himm Hq.
  set (pool := __potentialChildren population).
  pose proof (proj2 (childTarget_nonneg pool population hp) Hq) as Hk.
  pose proof (childTarget_le_pool pool population hp) as Hle.
  pose proof (childTarget_room pool population hp HP Himm Hk) as Hroom.
  destruct (sample_ok entropy pool (childTarget pool population hp) s)
    as (children & rest & E1 & Hl & _); [lia|].
  destruct (mutate_unchanged entropy children hp
              (s + Z.to_nat (childTarget pool population hp))%nat)
    as (s2 & E2).
  destruct (createPopulation_total entropy (mcrange hp) (dps hp)
              (popSize hp - (Z.of_nat (length children)
                             + Z.of_nat (length population))) s2)
    as (newcomers & E3 & Hn & _).
  rewrite (breedPopulation_assembled _ _ _ _ _ _ _ _ _ _ E1 E2 E3).
  assert (Hlen : Z.of_nat (length (population ++ children ++ newcomers))
                 = popSize hp).
  { rewrite !length_app, Hn. lia. }
  rewrite Hlen, Z.eqb_refl. eauto.
Qed.



(** C9, as stated, fails twice.  An elite of three against a quota of
    1.6 makes the breeder raise, where the claim has zero children and
    no error; and with a quota of 7.5 and an elite of two the breeder
    samples 5 children where the claim counts [round(7.5) - 2 = 6]. *)
Lemma breeder_child_count_fails :
  (__breedPopulation example_draws elite_three hp_small 0%nat
   = Raise (ValueError SampleLargerOrNegative) /\
   ~ samples_spec_childCount example_draws elite_three hp_small 0%nat) /\
  (childTarget (__potentialChildren elite_1234) elite_1234 hp_quarter = 5%Z /\
   spec_childCount (__potentialChildren elite_1234) elite_1234 hp_quarter
   = 6%Z /\
   ~ samples_spec_childCount example_draws elite_1234 hp_quarter 0%nat).
Proof.
  split; [split|split; [|split]].
  - apply breedPopulation_negative_target. vm_compute. reflexivity.
  - intros (children & s1 & E & _).
    rewrite sample_raises in E by (left; vm_compute; reflexivity).
    discriminate.
  - vm_compute. reflexivity.
  - vm_compute. reflexivity.
  - intros (children & s1 & E & Hl).
    apply sample_inv in E. destruct E as (_ & Hk & _).
    rewrite Hl in Hk. vm_compute in Hk. discriminate.
Qed.

(** C9, amended: the breeder asks for
    [int(min(poolSize, popSize * (1 - immigrationSize) - eliteSize))]
    children, the quota unrounded and the minimum truncated toward zero,
    which never exceeds the pool and is negative exactly when the quota
    is below the elite size by one or more.  When it is not negative the
    sample succeeds, with exactly that many children at distinct places
    of the pool; when it is negative the breeder raises the [ValueError]
    of [random.sample]. *)
Theorem breeder_child_count :
  forall (entropy : nat -> N) (population : list Formula)
         (hp : HyperParams) (s : cursor),
    let pool := __potentialChildren population in
    let k := childTarget pool population hp in
    (k <= Z.of_nat (length pool))%Z /\
    ((0 <= k)%Z <->
     (Z2Qc (-1) < Z2Qc (popSize hp) * (Z2Qc 1 - immigrationSize hp)
                  - Z2Qc (Z.of_nat (length population)))%Qc) /\
    if (0 <=? k)%Z
    then exists children rest,
        sample entropy pool k s = Ok (children, (s + Z.to_nat k)%nat) /\
        Z.of_nat (length children) = k /\
        Permutation (children ++ rest) pool
    else __breedPopulation entropy population hp s
         = Raise (ValueError SampleLargerOrNegative).
Proof.
  intros entropy population hp s pool k.
  pose proof (childTarget_le_pool pool population hp) as Hle.
  split; [exact Hle|]. split; [apply childTarget_nonneg|].
  destruct (Z.leb_spec 0 k) as [H|H].
  - apply sample_ok. fold k. lia.
  - apply breedPopulation_negative_target. exact H.
Qed.

(** ** Evolution engine: the empty dataset *)

Lemma evolve_no_data entropy module hp s first rest s' :
  (1 <= cycles hp)%Z ->
  __createPopulation entropy (mcrange hp) (dps hp) (popSize hp) s
  = Ok (first :: rest, s') ->
  evolve entropy module [] hp s
  = Ok ((mkFormula (m first) (c first) (Some (Z2Qc 0)), 1%Z), s').
Proof.
  intros Hc Hcreate.
  destruct (createPopulation_total entropy (mcrange hp) (dps hp)
              (popSize hp) s) as (l & E & _ & Hnone).
  rewrite Hcreate in E. inversion E; subst l; clear E.
  unfold evolve. unfold bind at 1. rewrite Hcreate.
  destruct (Z.to_nat (cycles hp)) as [|n] eqn:En; [lia|].
  cbn [evolve_loop]. unfold bind at 1. unfold bind at 1.
  rewrite scorePopulation_no_data. cbn [lift map].
  inversion Hnone as [|? ? Hfirst Hrest]; subst.
  rewrite (with_score_unscored _ _ Hfirst).
  unfold bind at 1.
  rewrite best_head.
  - cbn [lift fitness is_zero]. rewrite Qc_eq_bool_refl. reflexivity.
  - constructor; [cbn; eauto|].
    apply (map_with_score_scored (fun _ => Z2Qc 0)).
  - intros z Hz. apply in_map_iff in Hz. destruct Hz as (cand & <- & Hin).
    rewrite Forall_forall in Hrest.
    rewrite (with_score_unscored _ _ (Hrest _ Hin)).
    exists (Z2Qc 0), (Z2Qc 0). repeat split. apply Qcle_refl.
Qed.

(** C5, as stated, fails: on an empty dataset, with two candidates and a
    budget of ten cycles, [evolve] raises nothing and returns the first
    candidate of the initial population with fitness 0 after 1 cycle. *)
Lemma empty_dataset_is_not_refused :
  evolve eighth_draws None [] hp_small 0%nat
  = Ok ((lineFormula 1 2 (Some 0%Z), 1%Z), 4%nat) /\
  ~ refuses (evolve eighth_draws None [] hp_small 0%nat).
Proof.
  assert (E : evolve eighth_draws None [] hp_small 0%nat
              = Ok ((lineFormula 1 2 (Some 0%Z), 1%Z), 4%nat)).
  { decide_eq (run_eq_dec (A:=Formula * Z)
                 ltac:(decide equality;
                       [apply Z.eq_dec | apply Formula_eq_dec])). }
  split; [exact E|]. intros (e & H). rewrite E in H. discriminate.
Qed.

(** C5, amended: on an empty dataset, with a budget of at least one cycle
    and at least one candidate, [evolve] raises no error; it returns in
    generation 1 the first candidate of the initial population, scored 0,
    and 1 as the number of cycles used. *)
Theorem empty_dataset_converges_at_once :
  forall (entropy : nat -> N) (module : option HyperParams)
         (hp : HyperParams) (s : cursor),
    (1 <= cycles hp)%Z ->
    (1 <= popSize hp)%Z ->
    exists first rest s',
      __createPopulation entropy (mcrange hp) (dps hp) (popSize hp) s
      = Ok (first :: rest, s') /\
      evolve entropy module [] hp s
      = Ok ((mkFormula (m first) (c first) (Some (Z2Qc 0)), 1%Z), s').
Proof.
  intros entropy module hp s Hc Hp.
  destruct (createPopulation_total entropy (mcrange hp) (dps hp)
              (popSize hp) s) as (l & E & Hl & _).
  destruct l as [|first rest]; [cbn in Hl; lia|].
  exists first, rest, (s + Z.to_nat (popSize hp) * 2)%nat.
  split; [exact E|]. apply evolve_no_data with (rest := rest); assumption.
Qed.

Lemma empty_dataset_converges_at_once_witness :
  exists first rest s',
    __createPopulation eighth_draws (mcrange hp_small)
                     (dps hp_small) (popSize hp_small) 0%nat
    = Ok (first :: rest, s') /\
    evolve eighth_draws None [] hp_small 0%nat
    = Ok ((mkFormula (m first) (c first) (Some (Z2Qc 0)), 1%Z), s').
Proof.
  apply (empty_dataset_converges_at_once eighth_draws None
           hp_small 0%nat); vm_compute; discriminate.
Defined.

(** ** Evolution engine: the generational loop *)

Lemma is_zero_true (f : option Qc) :
  is_zero f = true -> f = Some (Z2Qc 0).
Proof.
  destruct f as [v|]; cbn; [|discriminate].
  intro H. apply Qc_eq_bool_correct in H. congruence.
Qed.

Lemma won_tournament_scored population k elite :
  scored population -> Forall (won_tournament population k) elite ->
  scored elite.
Proof.
  intros Hs Hall. apply Forall_forall. intros b Hb.
  rewrite Forall_forall in Hall. apply Hall, won_tournament_In in Hb.
  unfold scored in Hs. rewrite Forall_forall in Hs. apply Hs, Hb.
Qed.

Lemma evolve_loop_spec entropy g data hp s0 :
  valid_hyperParams hp -> feasible hp ->
  forall n i base s,
    (Z.of_nat i + Z.of_nat n = cycles hp)%Z ->
    Z.of_nat (length base) = popSize hp ->
    scoredGeneration entropy (Some g) data hp i s0
    = Ok (map (fun candidate =>
                 with_score (spec_score candidate data (dps g)) candidate)
              base, s) ->
    (forall j, (j < i)%nat -> unconverged entropy (Some g) data hp s0 j) ->
    (1 <= n)%nat ->
    exists r s',
      evolve_loop entropy (Some g) data hp n (Z.of_nat i) base s
      = Ok (r, s') /\
      match r with
      | inl (b, cyclesUsed) =>
          exists k fit,
            cyclesUsed = (Z.of_nat k + 1)%Z /\
            (cyclesUsed <= cycles hp)%Z /\
            scoredGeneration entropy (Some g) data hp k s0 = Ok (fit, s') /\
            __best fit = Ok b /\ is_best b fit /\
            fitness b = Some (Z2Qc 0) /\
            (forall j, (j < k)%nat ->
                       unconverged entropy (Some g) data hp s0 j)
      | inr elite =>
          exists fit s1,
            scoredGeneration entropy (Some g) data hp
                             (Z.to_nat (cycles hp - 1)) s0 = Ok (fit, s1) /\
            scored fit /\
            __selectPopulation entropy fit hp s1 = Ok (elite, s') /\
            Forall (won_tournament fit (tournamentSample hp)) elite /\
            elite <> [] /\
            (forall j, (j < Z.to_nat (cycles hp))%nat ->
                       unconverged entropy (Some g) data hp s0 j)
      end.
Proof.
  intros Hv Hf.
  destruct Hv as (Hcyc & Hpop & _ & _ & _ & _ & [_ Ht1] & _ & [Himm0 _]).
  destruct Hf as (Hts & Htc & Hquota).
  assert (Htr : (tournamentSample hp <= popSize hp)%Z).
  { rewrite tournamentSample_half_even. apply half_even_le.
    rewrite <- (Qcmult_1_r (Z2Qc (popSize hp))) at 2.
    rewrite (Qcmult_comm (Z2Qc (popSize hp)) (tournamentSize hp)).
    rewrite (Qcmult_comm (Z2Qc (popSize hp)) 1%Qc).
    apply Qcmult_le_compat_r; [exact Ht1 | apply Z2Qc_le; lia]. }
  induction n as [|n IH]; intros i base s Hi Hlen Hgen Hprev Hn; [lia|].
  set (fit := map (fun candidate =>
                     with_score (spec_score candidate data (dps g)) candidate)
                  base) in *.
  assert (Hsc : scored fit) by apply map_with_score_scored.
  assert (Hfl : length fit = length base) by apply length_map.
  destruct (best_ok fit Hsc) as (b0 & Eb & Hb).
  { intro E. rewrite E in Hfl. cbn in Hfl. lia. }
  cbn [evolve_loop]. unfold bind at 1.
  rewrite scorePopulation_bound. fold fit. cbn [lift].
  unfold bind at 1. rewrite Eb. cbn [lift].
  destruct (is_zero (fitness b0)) eqn:Ez.
  - exists (inl (b0, (Z.of_nat i + 1)%Z)), s. split; [reflexivity|].
    exists i, fit. repeat split; auto; try lia.
    + apply Hb.
    + apply Hb.
    + apply is_zero_true. exact Ez.
  - assert (Hun : unconverged entropy (Some g) data hp s0 i)
      by (exists fit, s, b0; auto).
    destruct (selectPopulation_ok entropy fit hp s Hsc) as
      (elite & Es & Hel & Hall); [lia|].
    unfold bind at 1. rewrite Es.
    assert (Hel' : Z.of_nat (length elite) = tournamentCount hp) by lia.
    destruct n as [|n'].
    + replace (Z.of_nat i + 1 <? cycles hp)%Z with false
        by (symmetry; apply Z.ltb_ge; lia).
      unfold bind at 1. cbn [ret evolve_loop].
      eexists (inr elite), _. split; [reflexivity|].
      exists fit, s. replace (Z.to_nat (cycles hp - 1)) with i by lia.
      repeat split; auto.
      * intros ->. cbn in Hel'. lia.
      * intros j Hj. destruct (Nat.eq_dec j i) as [->|Hne]; [exact Hun|].
        apply Hprev. lia.
    + replace (Z.of_nat i + 1 <? cycles hp)%Z with true
        by (symmetry; apply Z.ltb_lt; lia).
      destruct (breedPopulation_ok entropy elite hp
                  (s + Z.to_nat (tournamentCount hp)
                       * Z.to_nat (tournamentSample hp))%nat)
        as (base' & s2 & Ebreed & Hlen'); [lia | apply Qclt_le_weak; exact Himm0 | rewrite Hel'; exact Hquota |].
      unfold bind at 1. rewrite Ebreed.
      replace (Z.of_nat i + 1)%Z with (Z.of_nat (S i)) by lia.
      apply IH; [lia | exact Hlen' | | | lia].
      * cbn [scoredGeneration]. unfold bind at 1. rewrite Hgen.
        unfold bind at 1. rewrite Es. unfold bind at 1. rewrite Ebreed.
        rewrite scorePopulation_bound. reflexivity.
      * intros j Hj. destruct (Nat.eq_dec j i) as [->|Hne]; [exact Hun|].
        apply Hprev. lia.
Qed.
Lemma hp_pair_valid : valid_hyperParams hp_pair /\ feasible hp_pair.
Proof.
  unfold valid_hyperParams, feasible, unit_fraction.
  repeat split; vm_compute; congruence.
Qed.

(** C6, as stated, fails: with two candidates, one cycle and one
    tournament of one contestant, the generation evaluated last holds
    (1, 2) with fitness 2 and (4, 5) with fitness 5; the tournament draws
    (4, 5) and [evolve] returns it, with fitness 5, as the result. *)
Lemma evolve_returns_a_tournament_winner :
  valid_hyperParams hp_pair /\
  data_origin <> [] /\
  scoredGeneration tournament_draws (Some hp_pair) data_origin hp_pair
                   0%nat 0%nat
  = Ok ([lineFormula 1 2 (Some 2%Z); lineFormula 4 5 (Some 5%Z)], 4%nat) /\
  evolve tournament_draws (Some hp_pair) data_origin hp_pair 0%nat
  = Ok ((lineFormula 4 5 (Some 5%Z), 1%Z), 5%nat) /\
  ~ returns_best_of_last_generation tournament_draws (Some hp_pair)
      data_origin hp_pair 0%nat.
Proof.
  assert (Eg : scoredGeneration tournament_draws (Some hp_pair) data_origin
                 hp_pair 0%nat 0%nat
               = Ok ([lineFormula 1 2 (Some 2%Z);
                      lineFormula 4 5 (Some 5%Z)], 4%nat))
    by decide_eq (run_eq_dec (list_eq_dec Formula_eq_dec)).
  assert (Ee : evolve tournament_draws (Some hp_pair) data_origin hp_pair
                 0%nat
               = Ok ((lineFormula 4 5 (Some 5%Z), 1%Z), 5%nat))
    by decide_eq evolve_eq_dec.
  split; [apply hp_pair_valid|]. split; [discriminate|].
  split; [exact Eg|]. split; [exact Ee|].
  intros (b & n & s' & E & _ & fit & s1 & Hg & [_ Hmin] & _).
  rewrite Ee in E. inversion E; subst b n s'; clear E.
  change (Z.to_nat (1 - 1)) with 0%nat in Hg.
  rewrite Eg in Hg. inversion Hg; subst fit s1; clear Hg.
  destruct (Hmin (lineFormula 1 2 (Some 2%Z)) (or_introl eq_refl))
    as (u & v & Eu & Ev & Hle).
  cbn in Eu, Ev. inversion Eu; inversion Ev; subst u v.
  apply (proj1 (Z2Qc_le _ _)) in Hle. lia.
Qed.

(** C6, amended: with hyperparameters in their documented ranges that
    are moreover feasible, and the module's [hyperParams] bound, [evolve]
    returns a result [(b, n)] with [1 <= n <= cycles]; no generation
    before generation [n - 1] has a best candidate of fitness 0; and
    either [b] is the best candidate of generation [n - 1], with fitness
    0, or [n = cycles], the best of generation [cycles - 1] has a fitness
    other than 0, and [b] is the best member of the elite that the
    tournaments select from that generation. *)
Theorem evolve_returns_within_budget :
  forall (entropy : nat -> N) (g : HyperParams) (data : list DataPoint)
         (hp : HyperParams) (s : cursor),
    valid_hyperParams hp ->
    feasible hp ->
    exists b n s',
      evolve entropy (Some g) data hp s = Ok ((b, n), s') /\
      (1 <= n <= cycles hp)%Z /\
      (forall j, (j < Z.to_nat (n - 1))%nat ->
                 unconverged entropy (Some g) data hp s j) /\
      exists fit s1,
        scoredGeneration entropy (Some g) data hp (Z.to_nat (n - 1)) s
        = Ok (fit, s1) /\
        ((s' = s1 /\ __best fit = Ok b /\ is_best b fit /\
          fitness b = Some (Z2Qc 0)) \/
         (n = cycles hp /\
          unconverged entropy (Some g) data hp s (Z.to_nat (n - 1)) /\
          exists elite,
            __selectPopulation entropy fit hp s1 = Ok (elite, s') /\
            Forall (won_tournament fit (tournamentSample hp)) elite /\
            __best elite = Ok b /\ is_best b elite)).
Proof.
  intros entropy g data hp s Hv Hf.
  pose proof Hv as (Hcyc & Hpop & _).
  destruct (createPopulation_total entropy (mcrange hp) (dps hp)
              (popSize hp) s) as (base & Ec & Hlen & _).
  destruct (evolve_loop_spec entropy g data hp s Hv Hf
              (Z.to_nat (cycles hp)) 0%nat base
              (s + Z.to_nat (popSize hp) * 2)%nat)
    as (r & s' & El & Hr).
  - cbn. lia.
  - lia.
  - cbn [scoredGeneration]. unfold bind. rewrite Ec.
    rewrite scorePopulation_bound. reflexivity.
  - intros j Hj. lia.
  - lia.
  - unfold evolve. unfold bind at 1. rewrite Ec.
    unfold bind at 1. cbn [Z.of_nat] in El. rewrite El.
    destruct r as [[b n]|elite].
    + destruct Hr as (k & fit & -> & Hle & Hg & Eb & Hb & Hz & Hprev).
      exists b, (Z.of_nat k + 1)%Z, s'. cbn [ret].
      replace (Z.to_nat (Z.of_nat k + 1 - 1)) with k by lia.
      split; [reflexivity|]. split; [lia|]. split; [exact Hprev|].
      exists fit, s'. split; [exact Hg|]. left. auto.
    + destruct Hr as (fit & s1 & Hg & Hsc & Es & Hall & Hne & Hprev).
      assert (Hel : scored elite)
        by (eapply won_tournament_scored; eassumption).
      destruct (best_ok elite Hel Hne) as (b & Eb & Hb).
      exists b, (cycles hp), s'.
      unfold bind. rewrite Eb. cbn [lift ret].
      split; [reflexivity|]. split; [lia|]. split.
      * intros j Hj. apply Hprev. lia.
      * exists fit, s1. split; [exact Hg|]. right.
        split; [reflexivity|]. split; [apply Hprev; lia|].
        exists elite. auto.
Qed.

Lemma evolve_returns_within_budget_witness :
  exists b n s',
    evolve tournament_draws (Some hp_pair) data_origin hp_pair 0%nat
    = Ok ((b, n), s') /\
    (1 <= n <= cycles hp_pair)%Z /\
    (forall j, (j < Z.to_nat (n - 1))%nat ->
               unconverged tournament_draws (Some hp_pair) data_origin
                           hp_pair 0%nat j) /\
    exists fit s1,
      scoredGeneration tournament_draws (Some hp_pair) data_origin hp_pair
                       (Z.to_nat (n - 1)) 0%nat
      = Ok (fit, s1) /\
      ((s' = s1 /\ __best fit = Ok b /\ is_best b fit /\
        fitness b = Some (Z2Qc 0)) \/
       (n = cycles hp_pair /\
        unconverged tournament_draws (Some hp_pair) data_origin hp_pair
                    0%nat (Z.to_nat (n - 1)) /\
        exists elite,
          __selectPopulation tournament_draws fit hp_pair s1
          = Ok (elite, s') /\
          Forall (won_tournament fit (tournamentSample hp_pair)) elite /\
          __best elite = Ok b /\ is_best b elite)).
Proof.
  apply (evolve_returns_within_budget tournament_draws hp_pair data_origin
           hp_pair 0%nat).
  - unfold valid_hyperParams, unit_fraction.
    repeat split; vm_compute; congruence.
  - unfold feasible. repeat split; vm_compute; congruence.
Defined.

(* ================================================================== *)
(** * Further properties of the components *)

(** ** Population factory, continued *)

Lemma Z2Qc_mult (a b : Z) : Z2Qc (a * b) = (Z2Qc a * Z2Qc b)%Qc.
Proof.
  apply Qc_is_canon. unfold Z2Qc, Qcmult. cbn [this Q2Qc].
  rewrite !Qred_correct, inject_Z_mult. reflexivity.
Qed.

Lemma pow10_nonneg_digits (nd : Z) :
  (0 <= nd)%Z -> pow10 nd = Z2Qc (10 ^ nd) /\ (0 < 10 ^ nd)%Z.
Proof.
  intro H. split; [|apply Z.pow_pos_nonneg; lia].
  destruct nd as [|p|p]; [reflexivity | reflexivity | lia].
Qed.

Lemma Qcdiv_mult_cancel (h t : Qc) : t <> 0%Qc -> (h / t * t)%Qc = h.
Proof. intro H. field. exact H. Qed.

(** Rounding to a non-negative number of decimals never crosses an
    integer. *)
Lemma py_round_above_int (q : Qc) (nd a : Z) :
  (0 <= nd)%Z -> (Z2Qc a <= q)%Qc -> (Z2Qc a <= py_round q nd)%Qc.
Proof.
  intros Hnd Hq. destruct (pow10_nonneg_digits nd Hnd) as [Ep Hpos].
  unfold py_round. rewrite Ep.
  assert (Ht : (Z2Qc 0 < Z2Qc (10 ^ nd))%Qc) by (apply Z2Qc_lt; exact Hpos).
  apply (Qcmult_lt_0_le_reg_r _ _ (Z2Qc (10 ^ nd)) Ht).
  rewrite Qcdiv_mult_cancel
    by (intro E; apply (Qclt_not_eq _ _ Ht); symmetry; exact E).
  rewrite <- Z2Qc_mult. apply Z2Qc_le. apply half_even_ge.
  rewrite Z2Qc_mult. apply Qcmult_le_compat_r;
    [exact Hq | apply Qclt_le_weak; exact Ht].
Qed.

Lemma py_round_below_int (q : Qc) (nd b : Z) :
  (0 <= nd)%Z -> (q <= Z2Qc b)%Qc -> (py_round q nd <= Z2Qc b)%Qc.
Proof.
  intros Hnd Hq. destruct (pow10_nonneg_digits nd Hnd) as [Ep Hpos].
  unfold py_round. rewrite Ep.
  assert (Ht : (Z2Qc 0 < Z2Qc (10 ^ nd))%Qc) by (apply Z2Qc_lt; exact Hpos).
  apply (Qcmult_lt_0_le_reg_r _ _ (Z2Qc (10 ^ nd)) Ht).
  rewrite Qcdiv_mult_cancel
    by (intro E; apply (Qclt_not_eq _ _ Ht); symmetry; exact E).
  rewrite <- Z2Qc_mult. apply Z2Qc_le. apply half_even_le.
  rewrite Z2Qc_mult. apply Qcmult_le_compat_r;
    [exact Hq | apply Qclt_le_weak; exact Ht].
Qed.

Lemma uniform_range entropy (a b : Qc) s :
  (a <= b)%Qc ->
  exists u, uniform entropy a b s = Ok (u, S s) /\ (a <= u)%Qc /\ (u <= b)%Qc.
Proof.
  intro Hab. unfold uniform, bind.
  destruct (random_range entropy s) as (r & -> & H0 & H1). cbn [ret].
  eexists. split; [reflexivity|].
  assert (Hd : (0 <= b - a)%Qc) by qc_linear.
  pose proof (Qcmult_le_compat_r 0 r (b - a) H0 Hd) as L.
  pose proof (Qcmult_le_compat_r r 1 (b - a) (Qclt_le_weak _ _ H1) Hd) as U.
  rewrite Qcmult_0_l in L. rewrite Qcmult_1_l in U.
  rewrite (Qcmult_comm r (b - a)) in L, U.
  set (p := ((b - a) * r)%Qc) in *. clearbody p. split; qc_linear.
Qed.

(** X1: the factory never raises; it makes exactly [n] candidates, none
    for a count of zero or below, all of them unscored, and takes two
    draws from the random source for each. *)
Theorem factory_makes_the_count :
  forall (entropy : nat -> N) (r : MCRange) (nd n : Z) (s : cursor),
  exists l,
    __createPopulation entropy r nd n s
    = Ok (l, (s + 2 * Z.to_nat n)%nat) /\
    Z.of_nat (length l) = Z.max 0 n /\
    Forall (fun f => fitness f = None) l.
Proof.
  intros entropy r nd n s.
  destruct (createPopulation_total entropy r nd n s) as (l & E & Hl & Hf).
  exists l. replace (2 * Z.to_nat n)%nat with (Z.to_nat n * 2)%nat by lia.
  repeat split; [exact E | lia | exact Hf].
Qed.

(** X2: with integer bounds in order and a non-negative number of
    decimals, every candidate the factory makes lies within the bounds:
    [minM <= m <= maxM] and [minC <= c <= maxC]. *)
Theorem factory_respects_the_bounds :
  forall (entropy : nat -> N) (r : MCRange) (nd n : Z) (s : cursor)
         (l : list Formula) (s' : cursor) (f : Formula),
    (minM r <= maxM r)%Z ->
    (minC r <= maxC r)%Z ->
    (0 <= nd)%Z ->
    __createPopulation entropy r nd n s = Ok (l, s') ->
    In f l ->
    (Z2Qc (minM r) <= m f)%Qc /\ (m f <= Z2Qc (maxM r))%Qc /\
    (Z2Qc (minC r) <= c f)%Qc /\ (c f <= Z2Qc (maxC r))%Qc.
Proof.
  intros entropy r nd n s l s' f HM HC Hnd Hrun Hin.
  destruct (replicateM_total
              (do a <- uniform entropy (Z2Qc (minM r)) (Z2Qc (maxM r));
               do b <- uniform entropy (Z2Qc (minC r)) (Z2Qc (maxC r));
               ret (mkFormula (py_round a nd) (py_round b nd) None))
              (fun f => (Z2Qc (minM r) <= m f)%Qc /\
                        (m f <= Z2Qc (maxM r))%Qc /\
                        (Z2Qc (minC r) <= c f)%Qc /\
                        (c f <= Z2Qc (maxC r))%Qc)
              2%nat) with (n := Z.to_nat n) (s := s) as (l0 & E & _ & Hall).
  - intro s0.
    destruct (uniform_range entropy (Z2Qc (minM r)) (Z2Qc (maxM r)) s0)
      as (a & Ea & La & Ua); [apply Z2Qc_le; exact HM|].
    destruct (uniform_range entropy (Z2Qc (minC r)) (Z2Qc (maxC r)) (S s0))
      as (b & Eb & Lb & Ub); [apply Z2Qc_le; exact HC|].
    exists (mkFormula (py_round a nd) (py_round b nd) None).
    unfold bind. rewrite Ea, Eb. cbn [ret m c].
    replace (s0 + 2)%nat with (S (S s0)) by lia. split; [reflexivity|].
    repeat split;
      [apply py_round_above_int | apply py_round_below_int
       | apply py_round_above_int | apply py_round_below_int]; assumption.
  - unfold __createPopulation in Hrun. rewrite E in Hrun.
    inversion Hrun; subst l0 s'. rewrite Forall_forall in Hall.
    apply Hall. exact Hin.
Qed.

Lemma factory_respects_the_bounds_witness :
  (Z2Qc (minM (mkMCRange 0 10 0 10)) <= m (lineFormula 1 2 None))%Qc /\
  (m (lineFormula 1 2 None) <= Z2Qc (maxM (mkMCRange 0 10 0 10)))%Qc /\
  (Z2Qc (minC (mkMCRange 0 10 0 10)) <= c (lineFormula 1 2 None))%Qc /\
  (c (lineFormula 1 2 None) <= Z2Qc (maxC (mkMCRange 0 10 0 10)))%Qc.
Proof.
  apply (factory_respects_the_bounds eighth_draws (mkMCRange 0 10 0 10)
           0%Z 2%Z 0%nat
           [lineFormula 1 2 None; lineFormula 4 5 None] 4%nat
           (lineFormula 1 2 None)).
  - vm_compute. congruence.
  - vm_compute. congruence.
  - lia.
  - decide_eq (run_eq_dec (list_eq_dec Formula_eq_dec)).
  - left. reflexivity.
Defined.

(** ** Best candidate, continued *)

Lemma key_lt_inv a b lt :
  key_lt a b = Ok lt ->
  if lt then fitness_lt a b else fitness_le b a.
Proof.
  unfold key_lt. destruct (fitness a) as [u|] eqn:Eu; [|discriminate].
  destruct (fitness b) as [v|] eqn:Ev; [|discriminate].
  intro H. inversion H; subst lt; clear H.
  destruct (Qcltb u v) eqn:E.
  - exists u, v. repeat split; auto. apply Qcltb_lt. exact E.
  - exists v, u. repeat split; auto. apply Qcltb_ge. exact E.
Qed.

Lemma key_lt_raises a b e : key_lt a b = Raise e -> e = TypeError.
Proof.
  unfold key_lt. destruct (fitness a); [destruct (fitness b)|];
    intro H; inversion H; reflexivity.
Qed.

Lemma insert_by_fitness_inv a l l' :
  insert_by_fitness a l = Ok l' ->
  Permutation l' (a :: l) /\
  (l <> [] -> exists u, fitness a = Some u).
Proof.
  revert l'. induction l as [|b t IH]; intros l' H.
  - inversion H. split; [reflexivity | congruence].
  - cbn [insert_by_fitness] in H.
    destruct (key_lt b a) as [lt|e] eqn:Ek; [|discriminate].
    cbn [rbind] in H.
    assert (Ha : exists u, fitness a = Some u).
    { unfold key_lt in Ek. destruct (fitness b); [|discriminate].
      destruct (fitness a); [eauto | discriminate]. }
    split; [|intros _; exact Ha].
    destruct lt.
    + destruct (insert_by_fitness a t) as [t'|e] eqn:Et; [|discriminate].
      inversion H; subst l'.
      destruct (IH t' eq_refl) as [Hp _]. rewrite Hp. apply perm_swap.
    + inversion H. reflexivity.
Qed.

Lemma insert_by_fitness_raises a l e :
  insert_by_fitness a l = Raise e -> e = TypeError.
Proof.
  induction l as [|b t IH]; cbn [insert_by_fitness]; [discriminate|].
  destruct (key_lt b a) as [lt|e'] eqn:Ek; cbn [rbind].
  - destruct lt; [|discriminate].
    destruct (insert_by_fitness a t) as [t'|e'] eqn:Et; cbn [rbind];
      [discriminate|].
    intro H. inversion H; subst. apply IH. reflexivity.
  - intro H. inversion H; subst. eapply key_lt_raises. exact Ek.
Qed.

Lemma sorted_by_fitness_perm l l' :
  sorted_by_fitness l = Ok l' -> Permutation l' l.
Proof.
  revert l'. induction l as [|a t IH]; intros l' H.
  - inversion H. reflexivity.
  - cbn [sorted_by_fitness] in H.
    destruct (sorted_by_fitness t) as [t'|e]; [|discriminate].
    cbn [rbind] in H. apply insert_by_fitness_inv in H.
    destruct H as [Hp _]. rewrite Hp. constructor. apply IH. reflexivity.
Qed.

Lemma sorted_by_fitness_raises l e :
  sorted_by_fitness l = Raise e -> e = TypeError.
Proof.
  induction l as [|a t IH]; cbn [sorted_by_fitness]; [discriminate|].
  destruct (sorted_by_fitness t) as [t'|e']; cbn [rbind].
  - apply insert_by_fitness_raises.
  - intro H. inversion H; subst. apply IH. reflexivity.
Qed.

(** What it takes for the sort to go through: a fitness on every member,
    unless there is at most one member to sort. *)
Lemma sorted_by_fitness_scored l l' :
  sorted_by_fitness l = Ok l' -> (2 <= length l)%nat -> scored l.
Proof.
  revert l'. induction l as [|a t IH]; intros l' H Hlen; [cbn in Hlen; lia|].
  cbn [sorted_by_fitness] in H.
  destruct (sorted_by_fitness t) as [t'|e] eqn:Et; [|discriminate].
  cbn [rbind] in H.
  pose proof (sorted_by_fitness_perm t t' Et) as Hp.
  destruct t' as [|b r].
  { apply Permutation_nil in Hp. subst t. cbn in Hlen. lia. }
  assert (Hab : (exists u, fitness a = Some u) /\
                (exists v, fitness b = Some v)).
  { cbn [insert_by_fitness] in H. unfold key_lt in H.
    destruct (fitness b); [|discriminate].
    destruct (fitness a); [eauto | discriminate]. }
  destruct Hab as [Ha Hb]. constructor; [exact Ha|].
  destruct t as [|t1 [|t2 t3]].
  - constructor.
  - apply Permutation_sym, Permutation_length_1_inv in Hp.
    inversion Hp; subst.
    constructor; [exact Hb | constructor].
  - apply (IH (b :: r) eq_refl). cbn. lia.
Qed.

Lemma best_In l b : __best l = Ok b -> In b l.
Proof.
  unfold __best. destruct (sorted_by_fitness l) as [l'|e] eqn:E;
    [|discriminate].
  cbn [rbind]. destruct l' as [|b' r]; [discriminate|].
  intro H. inversion H; subst b'.
  apply (Permutation_in _ (sorted_by_fitness_perm l _ E)). left. reflexivity.
Qed.

Lemma best_cons a t b' :
  scored (a :: t) -> __best t = Ok b' ->
  exists lt, key_lt b' a = Ok lt /\
             __best (a :: t) = Ok (if lt then b' else a).
Proof.
  intros Hs Hb. inversion Hs as [|? ? Ha Ht]; subst.
  destruct (sorted_by_fitness_ok t Ht) as (t' & E & Hp & Hsort & Hsc).
  unfold __best in Hb. rewrite E in Hb. cbn [rbind] in Hb.
  destruct t' as [|b r]; [discriminate|]. inversion Hb; subst b.
  inversion Hsc as [|? ? Hb' Hr]; subst.
  destruct (key_lt_scored b' a Hb' Ha) as [[Ek _]|[Ek _]].
  - exists true. split; [exact Ek|].
    unfold __best. cbn [sorted_by_fitness]. rewrite E. cbn [rbind].
    cbn [insert_by_fitness]. rewrite Ek. cbn [rbind].
    apply StronglySorted_inv in Hsort. destruct Hsort as [Hsr _].
    destruct (insert_by_fitness_sorted a r Ha Hr Hsr) as (r' & -> & _).
    reflexivity.
  - exists false. split; [exact Ek|].
    unfold __best. cbn [sorted_by_fitness]. rewrite E. cbn [rbind].
    cbn [insert_by_fitness]. rewrite Ek. reflexivity.
Qed.

(** X3: on a scored population the best candidate is the first of the
    members of minimal fitness: every member before it is strictly
    worse, every member after it is no better. *)
Theorem best_is_the_first_minimum :
  forall (l : list Formula) (b : Formula),
    scored l ->
    __best l = Ok b ->
    exists pre post,
      l = pre ++ b :: post /\
      (forall a, In a pre -> fitness_lt b a) /\
      (forall a, In a post -> fitness_le b a).
Proof.
  induction l as [|a t IH]; intros b Hs Hb; [discriminate|].
  destruct t as [|a' t'].
  - inversion Hb; subst b. exists [], []. repeat split; intros ? [].
  - inversion Hs as [|? ? Ha Ht]; subst.
    destruct (best_ok (a' :: t') Ht ltac:(discriminate)) as (b' & Eb' & Hmin).
    destruct (best_cons a (a' :: t') b' Hs Eb') as (lt & Ek & E).
    rewrite E in Hb. inversion Hb; subst b; clear Hb.
    pose proof (key_lt_inv b' a lt Ek) as Hk. destruct lt.
    + destruct (IH b' Ht Eb') as (pre & post & El & Hpre & Hpost).
      exists (a :: pre), post. rewrite El. repeat split; auto.
      intros z [<-|Hz]; [exact Hk | apply Hpre; exact Hz].
    + exists [], (a' :: t'). repeat split; [intros ? []|].
      intros z Hz. eapply fitness_le_trans; [exact Hk|].
      apply Hmin. exact Hz.
Qed.

Lemma best_is_the_first_minimum_witness :
  exists pre post,
    [lineFormula 4 5 (Some 5%Z); lineFormula 1 2 (Some 2%Z);
     lineFormula 3 3 (Some 2%Z)]
    = pre ++ lineFormula 1 2 (Some 2%Z) :: post /\
    (forall a, In a pre -> fitness_lt (lineFormula 1 2 (Some 2%Z)) a) /\
    (forall a, In a post -> fitness_le (lineFormula 1 2 (Some 2%Z)) a).
Proof.
  apply (best_is_the_first_minimum
           [lineFormula 4 5 (Some 5%Z); lineFormula 1 2 (Some 2%Z);
            lineFormula 3 3 (Some 2%Z)]
           (lineFormula 1 2 (Some 2%Z))).
  - apply (lineFormula_scored [(4, 5, 5); (1, 2, 2); (3, 3, 2)]%Z).
  - decide_eq (result_eq_dec Formula_eq_dec).
Defined.

Lemma best_unscored_raises (l : list Formula) :
  (2 <= length l)%nat -> ~ scored l -> __best l = Raise TypeError.
Proof.
  intros Hlen Hns. unfold __best.
  destruct (sorted_by_fitness l) as [l'|e] eqn:E.
  - exfalso. apply Hns. apply (sorted_by_fitness_scored _ l' E). exact Hlen.
  - apply sorted_by_fitness_raises in E. subst e. reflexivity.
Qed.

(** X4: the best of an empty population is an [IndexError]; a single
    member is its own best, scored or not; and with two members or
    more, one of them unscored, it is a [TypeError]. *)
Theorem best_of_the_unsortable :
  forall (l : list Formula),
    match l with
    | [] => __best l = Raise IndexError
    | [a] => __best l = Ok a
    | _ => ~ scored l -> __best l = Raise TypeError
    end.
Proof.
  intros [|a [|a' t]]; [reflexivity | reflexivity |].
  apply best_unscored_raises. cbn. lia.
Qed.

Lemma best_of_the_unsortable_witness :
  __best [lineFormula 1 2 (Some 2%Z); lineFormula 4 5 None]
  = Raise TypeError.
Proof.
  apply (best_of_the_unsortable
           [lineFormula 1 2 (Some 2%Z); lineFormula 4 5 None]).
  intro H. inversion H as [|? ? _ H']; subst.
  inversion H' as [|? ? [v Hv] _]; subst. discriminate.
Defined.

(** ** Fitness evaluator, continued *)

Lemma fold_left_Qcplus (l : list Qc) (a : Qc) :
  fold_left Qcplus l a = (a + sumQc l)%Qc.
Proof.
  unfold sumQc. revert a. induction l as [|x t IH]; intro a; cbn [fold_left].
  - change (Z2Qc 0) with 0%Qc. ring.
  - rewrite (IH (a + x)%Qc), (IH (Z2Qc 0 + x)%Qc).
    change (Z2Qc 0) with 0%Qc. ring.
Qed.

Lemma sumQc_cons (x : Qc) (l : list Qc) : sumQc (x :: l) = (x + sumQc l)%Qc.
Proof.
  unfold sumQc at 1. cbn [fold_left]. rewrite fold_left_Qcplus.
  change (Z2Qc 0) with 0%Qc. ring.
Qed.

Lemma sumQc_app (l1 l2 : list Qc) :
  sumQc (l1 ++ l2) = (sumQc l1 + sumQc l2)%Qc.
Proof.
  induction l1 as [|x t IH]; cbn [app].
  - unfold sumQc at 2. cbn. change (Z2Qc 0) with 0%Qc. ring.
  - rewrite !sumQc_cons, IH. ring.
Qed.

Lemma sumQc_nonneg (l : list Qc) :
  (forall x, In x l -> (0 <= x)%Qc) ->
  (0 <= sumQc l)%Qc /\ (sumQc l = 0%Qc <-> forall x, In x l -> x = 0%Qc).
Proof.
  induction l as [|x t IH]; intro H.
  - split; [apply Qcle_refl|]. split; [intros _ ? [] | reflexivity].
  - destruct IH as [Ht Hz]; [intros; apply H; right; assumption|].
    pose proof (H x (or_introl eq_refl)) as Hx.
    rewrite sumQc_cons. set (r := sumQc t) in *. clearbody r. split.
    + qc_linear.
    + split.
      * intros E z [<-|Hin].
        -- apply Qcle_antisym; [|exact Hx].
           assert (L : (x + r <= 0)%Qc) by (rewrite E; apply Qcle_refl).
           clear E Hz H. qc_linear.
        -- apply Hz; [|exact Hin]. apply Qcle_antisym; [|exact Ht].
           assert (L : (x + r <= 0)%Qc) by (rewrite E; apply Qcle_refl).
           clear E Hz H Hin. qc_linear.
      * intro Hall. rewrite (Hall x (or_introl eq_refl)).
        rewrite (proj2 Hz (fun z Hin => Hall z (or_intror Hin))). ring.
Qed.

Lemma py_round_zero (nd : Z) : py_round 0%Qc nd = 0%Qc.
Proof.
  unfold py_round. rewrite Qcmult_0_l.
  change (half_even 0%Qc) with 0%Z. change (Z2Qc 0) with 0%Qc.
  unfold Qcdiv. apply Qcmult_0_l.
Qed.

Lemma spec_score_nonneg candidate data precision :
  (0 <= spec_score candidate data precision)%Qc /\
  (spec_score candidate data precision = 0%Qc <->
   forall datapoint, In datapoint data ->
                     rounded_residual candidate precision datapoint = 0%Qc).
Proof.
  destruct (sumQc_nonneg
              (map (fun datapoint =>
                      Qcabs (rounded_residual candidate precision datapoint))
                   data)) as [Hn Hz].
  - intros z Hz. apply in_map_iff in Hz. destruct Hz as (d & <- & _).
    apply Qcabs_nonneg.
  - split; [exact Hn|].
    change (spec_score candidate data precision)
      with (sumQc (map (fun datapoint =>
                          Qcabs (rounded_residual candidate precision
                                                  datapoint))
                       data)).
    rewrite Hz. split.
    + intros H d Hd. apply Qcabs_null. apply H.
      apply in_map_iff. exists d. auto.
    + intros H z Hin. apply in_map_iff in Hin. destruct Hin as (d & <- & Hd).
      rewrite (H d Hd). apply Qcabs_pos, Qcle_refl.
Qed.

(** X5: with the module's [hyperParams] bound, the score of a candidate
    is never negative, and it is 0 exactly when the residual at every
    data point rounds to 0 at the module's precision. *)
Theorem score_is_nonnegative :
  forall (g : HyperParams) (candidate : Formula) (data : list DataPoint),
  exists v,
    __score (Some g) candidate data = Ok v /\
    (0 <= v)%Qc /\
    (v = 0%Qc <->
     forall datapoint, In datapoint data ->
                       rounded_residual candidate (dps g) datapoint = 0%Qc).
Proof.
  intros g candidate data. exists (spec_score candidate data (dps g)).
  split; [apply score_bound | apply spec_score_nonneg].
Qed.

(** X6: a candidate whose line passes through every data point scores 0,
    at whatever precision. *)
Theorem exact_fit_scores_zero :
  forall (g : HyperParams) (candidate : Formula) (data : list DataPoint),
    (forall datapoint, In datapoint data ->
                       y datapoint
                       = (m candidate * x datapoint + c candidate)%Qc) ->
    __score (Some g) candidate data = Ok 0%Qc.
Proof.
  intros g candidate data Hfit. rewrite score_bound. f_equal.
  apply spec_score_nonneg. intros d Hd.
  unfold rounded_residual. rewrite (Hfit d Hd).
  replace (m candidate * x d + c candidate
           - (m candidate * x d + c candidate))%Qc with 0%Qc by ring.
  apply py_round_zero.
Qed.

Lemma exact_fit_scores_zero_witness :
  __score (Some hp_mutation) (lineFormula 1 0 None) data_diagonal = Ok 0%Qc.
Proof.
  apply (exact_fit_scores_zero hp_mutation (lineFormula 1 0 None)
           data_diagonal).
  intros d [<-|[<-|[<-|[]]]]; decide_eq Qc_eq_dec.
Defined.

(** X7: with the module's [hyperParams] bound and the arithmetic exact,
    the score over two datasets put end to end is the sum of the two
    scores; more data never lowers a score. *)
Theorem score_adds_over_data :
  forall (g : HyperParams) (candidate : Formula)
         (data more : list DataPoint),
  exists v w,
    __score (Some g) candidate data = Ok v /\
    __score (Some g) candidate more = Ok w /\
    __score (Some g) candidate (data ++ more) = Ok (v + w)%Qc /\
    (v <= v + w)%Qc.
Proof.
  intros g candidate data more.
  pose proof (proj1 (spec_score_nonneg candidate more (dps g))) as Hw.
  exists (spec_score candidate data (dps g)),
         (spec_score candidate more (dps g)).
  split; [apply score_bound|]. split; [apply score_bound|].
  split.
  - rewrite score_bound. unfold spec_score. rewrite map_app, sumQc_app.
    reflexivity.
  - set (a := spec_score candidate data (dps g)) in *.
    set (b := spec_score candidate more (dps g)) in *.
    clearbody a b. qc_linear.
Qed.

(** ** Scoring a population, continued *)

(** X8: scoring is idempotent: a population that comes out of
    [__scorePopulation] goes through it again unchanged, on the same
    data and module precision. *)
Theorem scoring_is_idempotent :
  forall (g : HyperParams) (population : list Formula)
         (data : list DataPoint) (hp hp' : HyperParams)
         (fit : list Formula),
    __scorePopulation (Some g) population data hp = Ok fit ->
    __scorePopulation (Some g) fit data hp' = Ok fit.
Proof.
  intros g population data hp hp' fit H.
  rewrite scorePopulation_bound in H. inversion H; subst fit; clear H.
  rewrite scorePopulation_bound, map_map. f_equal.
  apply map_ext. intro candidate.
  assert (Es : forall v,
             spec_score (with_score v candidate) data (dps g)
             = spec_score candidate data (dps g)) by reflexivity.
  rewrite Es. unfold with_score at 1 3. cbn [m c fitness].
  destruct (truthy (fitness candidate)) eqn:Et.
  - unfold with_score. cbn [fitness]. rewrite Et, Et. reflexivity.
  - unfold with_score. cbn [fitness]. rewrite Et.
    destruct (truthy (Some (spec_score candidate data (dps g))));
      reflexivity.
Qed.

Lemma scoring_is_idempotent_witness :
  __scorePopulation (Some (hp_dps 0)) [lineFormula 0 0 (Some 1%Z)]
                    data_126 (hp_dps 1)
  = Ok [lineFormula 0 0 (Some 1%Z)].
Proof.
  apply (scoring_is_idempotent (hp_dps 0) [lineFormula 0 0 None] data_126
           (hp_dps 1) (hp_dps 1) [lineFormula 0 0 (Some 1%Z)]).
  decide_eq (result_eq_dec (list_eq_dec Formula_eq_dec)).
Defined.

(** X9: when the module has no [hyperParams] and the dataset is not
    empty, scoring raises [NameError] as soon as one candidate has to be
    scored, its fitness being unset or 0; a population whose every
    fitness is set and not 0 is returned as it is. *)
Theorem scoring_without_module_hyperParams :
  forall (population : list Formula) (data : list DataPoint)
         (hp : HyperParams),
    data <> [] ->
    __scorePopulation None population data hp
    = if forallb (fun candidate => truthy (fitness candidate)) population
      then Ok population
      else Raise NameError.
Proof.
  intros population data hp Hd.
  destruct data as [|d ds]; [contradiction|]. clear Hd.
  unfold __scorePopulation.
  induction population as [|candidate rest IH]; [reflexivity|].
  cbn [rmapM forallb].
  destruct (truthy (fitness candidate)) eqn:Et; cbn [rbind andb].
  - rewrite IH.
    destruct (forallb (fun candidate => truthy (fitness candidate)) rest);
      cbn [rbind]; [destruct candidate|]; reflexivity.
  - reflexivity.
Qed.

Lemma scoring_without_module_hyperParams_witness :
  __scorePopulation None [lineFormula 0 0 (Some 1%Z); lineFormula 1 1 None]
                    data_126 (hp_dps 1)
  = if forallb (fun candidate => truthy (fitness candidate))
               [lineFormula 0 0 (Some 1%Z); lineFormula 1 1 None]
    then Ok [lineFormula 0 0 (Some 1%Z); lineFormula 1 1 None]
    else Raise NameError.
Proof.
  apply (scoring_without_module_hyperParams
           [lineFormula 0 0 (Some 1%Z); lineFormula 1 1 None]
           data_126 (hp_dps 1)).
  discriminate.
Defined.

(** ** Selector, continued *)

Lemma replicateM_inv {A} (act : M A) (P : A -> Prop) (d : nat) :
  (forall s a s1, act s = Ok (a, s1) -> P a /\ s1 = (s + d)%nat) ->
  forall n s l s',
    replicateM n act s = Ok (l, s') ->
    length l = n /\ Forall P l /\ s' = (s + n * d)%nat.
Proof.
  intros Hact n. induction n as [|n IH]; intros s l s' H.
  - inversion H; subst. repeat split; [constructor | lia].
  - cbn [replicateM] in H. apply bind_Ok in H.
    destruct H as (a & s1 & Ea & H). apply bind_Ok in H.
    destruct H as (rest & s2 & Er & H). inversion H; subst l s'; clear H.
    destruct (Hact s a s1 Ea) as [Pa ->].
    destruct (IH _ _ _ Er) as (Hl & Hf & ->).
    repeat split; [simpl; lia | constructor; assumption | simpl; lia].
Qed.

Lemma tournament_inv entropy population k s b s1 :
  (do contestants <- sample entropy population k;
   lift (__best contestants)) s = Ok (b, s1) ->
  In b population /\ s1 = (s + Z.to_nat k)%nat.
Proof.
  intro H. apply bind_Ok in H. destruct H as (contestants & s2 & Es & H).
  unfold lift in H.
  destruct (__best contestants) as [b'|e] eqn:Eb; [|discriminate].
  inversion H; subst b' s2; clear H.
  pose proof (sample_inv entropy population k s contestants s1 Es)
    as (Hk & _ & rest & Hp).
  destruct (sample_ok entropy population k s Hk) as (l & rest' & E & _).
  rewrite E in Es. inversion Es; subst. split; [|reflexivity].
  apply (Permutation_in _ Hp). apply in_or_app. left.
  apply best_In. exact Eb.
Qed.

(** X10: a tournament that asks for more contestants than the population
    has, or for a negative number of them, makes the selection raise the
    [ValueError] of [random.sample], as soon as one tournament is held. *)
Theorem selection_rejects_an_oversized_sample :
  forall (entropy : nat -> N) (population : list Formula)
         (hp : HyperParams) (s : cursor),
    (tournamentSample hp < 0
     \/ Z.of_nat (length population) < tournamentSample hp)%Z ->
    (1 <= tournamentCount hp)%Z ->
    __selectPopulation entropy population hp s
    = Raise (ValueError SampleLargerOrNegative).
Proof.
  intros entropy population hp s Hk Hc. unfold __selectPopulation.
  destruct (Z.to_nat (tournamentCount hp)) as [|n] eqn:En; [lia|].
  cbn [replicateM]. unfold bind at 1. unfold bind at 1.
  rewrite sample_raises by exact Hk. reflexivity.
Qed.

Lemma selection_rejects_an_oversized_sample_witness :
  __selectPopulation example_draws [lineFormula 1 2 (Some 2%Z)]
                     hp_mutation 0%nat
  = Raise (ValueError SampleLargerOrNegative).
Proof.
  apply (selection_rejects_an_oversized_sample example_draws
           [lineFormula 1 2 (Some 2%Z)] hp_mutation 0%nat).
  - right. vm_compute. reflexivity.
  - vm_compute. congruence.
Defined.

Lemma selectPopulation_inv entropy population hp s elite s' :
  __selectPopulation entropy population hp s = Ok (elite, s') ->
  length elite = Z.to_nat (tournamentCount hp) /\
  (forall b, In b elite -> In b population) /\
  s' = (s + Z.to_nat (tournamentCount hp)
            * Z.to_nat (tournamentSample hp))%nat.
Proof.
  intro H. unfold __selectPopulation in H.
  destruct (replicateM_inv
              (do contestants <-
                 sample entropy population (tournamentSample hp);
               lift (__best contestants))
              (fun b => In b population)
              (Z.to_nat (tournamentSample hp))
              (fun s0 a s1 E =>
                 tournament_inv entropy population _ s0 a s1 E)
              _ _ _ _ H) as (Hl & Hf & Hs).
  rewrite Forall_forall in Hf. auto.
Qed.

(** X11: a selection that goes through returns as many winners as there
    are tournaments, every one of them a member of the population it was
    given. *)
Theorem selection_draws_from_the_population :
  forall (entropy : nat -> N) (population : list Formula)
         (hp : HyperParams) (s : cursor) (elite : list Formula)
         (s' : cursor),
    __selectPopulation entropy population hp s = Ok (elite, s') ->
    Z.of_nat (length elite) = Z.max 0 (tournamentCount hp) /\
    (forall b, In b elite -> In b population).
Proof.
  intros entropy population hp s elite s' H.
  destruct (selectPopulation_inv _ _ _ _ _ _ H) as (Hl & Hin & _).
  split; [lia | exact Hin].
Qed.

Lemma selection_draws_from_the_population_witness :
  Z.of_nat (length [lineFormula 1 1 (Some 1%Z); lineFormula 2 2 (Some 2%Z);
                    lineFormula 1 1 (Some 1%Z); lineFormula 1 1 (Some 1%Z)])
  = Z.max 0 (tournamentCount hp_mutation) /\
  (forall b,
      In b [lineFormula 1 1 (Some 1%Z); lineFormula 2 2 (Some 2%Z);
            lineFormula 1 1 (Some 1%Z); lineFormula 1 1 (Some 1%Z)] ->
      In b population_five).
Proof.
  apply (selection_draws_from_the_population example_draws population_five
           hp_mutation 0%nat _ 8%nat).
  decide_eq (run_eq_dec (list_eq_dec Formula_eq_dec)).
Defined.

(** ** Crossover pool, continued *)

Lemma set_add_length {A} (dec : forall a b : A, {a = b} + {a <> b})
  (a : A) (s : list A) :
  (length (set_add dec a s) <= S (length s))%nat.
Proof.
  induction s as [|b t IH]; cbn; [lia|].
  destruct (dec a b); cbn; lia.
Qed.

Lemma py_set_length {A} (dec : forall a b : A, {a = b} + {a <> b})
  (l : list A) :
  (length (py_set dec l) <= length l)%nat.
Proof.
  unfold py_set.
  assert (H : forall acc,
             (length (fold_left (fun s a => set_add dec a s) l acc)
              <= length acc + length l)%nat).
  { induction l as [|a t IH]; intro acc; cbn [fold_left length]; [lia|].
    pose proof (IH (set_add dec a acc)).
    pose proof (set_add_length dec a acc). lia. }
  apply (H (empty_set A)).
Qed.

(** X12: the crossover of any two members of the elite, in either
    order, is in the pool. *)
Theorem pool_holds_every_crossover :
  forall (population : list Formula) (a b : Formula),
    In a population ->
    In b population ->
    In (__crossover a b) (__potentialChildren population) /\
    In (__crossover b a) (__potentialChildren population).
Proof.
  intros population a b Ha Hb.
  split; apply potentialChildren_In; (split; [reflexivity|]); left;
    cbn [__crossover m c]; split; apply in_map; assumption.
Qed.

Lemma pool_holds_every_crossover_witness :
  In (__crossover (lineFormula 1 2 (Some 3%Z)) (lineFormula 3 4 (Some 7%Z)))
     (__potentialChildren elite_1234) /\
  In (__crossover (lineFormula 3 4 (Some 7%Z)) (lineFormula 1 2 (Some 3%Z)))
     (__potentialChildren elite_1234).
Proof.
  apply (pool_holds_every_crossover elite_1234
           (lineFormula 1 2 (Some 3%Z)) (lineFormula 3 4 (Some 7%Z))).
  - left. reflexivity.
  - right. left. reflexivity.
Defined.

(** X13: the pool has no duplicates, every child in it is unscored, and
    it is closed under exchanging [m] and [c]: the child ([m], [c]) is
    in the pool exactly when ([c], [m]) is. *)
Theorem pool_is_a_mirrored_set :
  forall (population : list Formula),
    NoDup (__potentialChildren population) /\
    Forall (fun f => fitness f = None) (__potentialChildren population) /\
    forall u v : Qc,
      In (mkFormula u v None) (__potentialChildren population) <->
      In (mkFormula v u None) (__potentialChildren population).
Proof.
  intro population. split; [|split].
  - apply potentialChildren_NoDup.
  - apply Forall_forall. intros f Hf.
    apply potentialChildren_In in Hf. apply Hf.
  - intros u v. rewrite !potentialChildren_In. cbn [m c fitness]. tauto.
Qed.

(** X14: an elite of [n] members has a pool of at most [2 * n * n]
    children, and the pool is empty only for an empty elite. *)
Theorem pool_size :
  forall (population : list Formula),
    (length (__potentialChildren population)
     <= 2 * length population * length population)%nat /\
    (__potentialChildren population = [] <-> population = []).
Proof.
  intro population. split.
  - unfold __potentialChildren. rewrite length_map.
    eapply Nat.le_trans; [apply py_set_length|].
    rewrite length_app, length_map, !length_prod, !length_map. lia.
  - split.
    + intro E. destruct population as [|a t]; [reflexivity|]. exfalso.
      assert (H : In (mkFormula (m a) (c a) None)
                     (__potentialChildren (a :: t))).
      { apply potentialChildren_In. split; [reflexivity|]. left.
        cbn [m c map]. split; left; reflexivity. }
      rewrite E in H. exact H.
    + intros ->. reflexivity.
Qed.

(** ** Mutator, continued *)

Lemma mutate_loop_cursor entropy children hp acc s out s' :
  mutate_loop entropy children hp acc s = Ok (out, s') ->
  (s + length children <= s' <= s + 3 * length children)%nat.
Proof.
  revert acc s. induction children as [|child rest IH]; intros acc s H.
  - inversion H; subst. cbn. lia.
  - cbn [mutate_loop] in H. unfold bind at 1 in H.
    unfold random at 1 in H. cbv beta iota in H.
    destruct (Qcltb _ (mutProb hp)).
    + unfold bind at 1 in H. unfold bind at 1 in H.
      unfold random at 1 in H. cbv beta iota in H.
      unfold bind at 1 in H. unfold random at 1 in H. cbv beta iota in H.
      destruct (Qcltb _ (Q2Qc (1 # 2))); cbn [ret] in H;
        apply IH in H; cbn [length]; lia.
    + unfold bind at 1 in H. cbn [ret] in H.
      apply IH in H. cbn [length]. lia.
Qed.

(** X15: the mutator never raises; its output, a set, has at most as
    many members as it was given children; and it takes between one and
    three draws from the random source for each child. *)
Theorem mutator_draws :
  forall (entropy : nat -> N) (children : list Formula)
         (hp : HyperParams) (s : cursor),
  exists out s',
    __mutate entropy children hp s = Ok (out, s') /\
    (length out <= length children)%nat /\
    (s + length children <= s' <= s + 3 * length children)%nat.
Proof.
  intros entropy children hp s.
  destruct (mutate_unchanged entropy children hp s) as (s' & E).
  exists (py_set Formula_eq_dec (map unscored children)), s'.
  split; [exact E|]. split.
  - eapply Nat.le_trans; [apply py_set_length|]. rewrite length_map. lia.
  - unfold __mutate in E. eapply mutate_loop_cursor. exact E.
Qed.

(** ** Breeder, continued *)

(** X16: a generation that comes out of the breeder begins with the
    elite as it was handed in, fitness included; after it come the
    sampled children, pairwise distinct members of the pool, and the
    immigrants, and all of these are unscored. *)
Theorem breeder_keeps_the_elite :
  forall (entropy : nat -> N) (population : list Formula)
         (hp : HyperParams) (s : cursor) (pop' : list Formula)
         (s' : cursor),
    __breedPopulation entropy population hp s = Ok (pop', s') ->
    exists children newcomers,
      pop' = population ++ children ++ newcomers /\
      NoDup children /\
      (forall child, In child children ->
                     In child (__potentialChildren population)) /\
      Forall (fun f => fitness f = None) (children ++ newcomers).
Proof.
  intros entropy population hp s pop' s' H.
  destruct (breedPopulation_inv _ _ _ _ _ _ H)
    as (children & s1 & mutated & s2 & newcomers & Es & _ & Ec & Ep & _).
  exists children, newcomers. split; [exact Ep|].
  destruct (sample_inv _ _ _ _ _ _ Es) as (_ & _ & rest & Hp).
  assert (Hin : forall child, In child children ->
                              In child (__potentialChildren population)).
  { intros child Hc. apply (Permutation_in _ Hp).
    apply in_or_app. left. exact Hc. }
  split; [|split; [exact Hin|]].
  - pose proof (potentialChildren_NoDup population) as Hnd.
    apply (Permutation_NoDup (Permutation_sym Hp)) in Hnd.
    apply NoDup_app_remove_r in Hnd. exact Hnd.
  - apply Forall_app. split.
    + apply Forall_forall. intros f Hf.
      apply Hin, potentialChildren_In in Hf. apply Hf.
    + destruct (createPopulation_total entropy (mcrange hp) (dps hp)
                  (popSize hp - (Z.of_nat (length children)
                                 + Z.of_nat (length population))) s2)
        as (l & E & _ & Hnone).
      rewrite E in Ec. inversion Ec; subst. exact Hnone.
Qed.

Lemma breeder_keeps_the_elite_witness :
  exists children newcomers,
    elite_1234
    ++ [lineFormula 1 4 None; lineFormula 4 3 None; lineFormula 4 1 None;
        lineFormula 2 3 None; lineFormula 2 1 None; lineFormula 3 4 None]
    ++ [lineFormula 0 0 None; lineFormula 0 0 None]
    = elite_1234 ++ children ++ newcomers /\
    NoDup children /\
    (forall child, In child children ->
                   In child (__potentialChildren elite_1234)) /\
    Forall (fun f => fitness f = None) (children ++ newcomers).
Proof.
  apply (breeder_keeps_the_elite example_draws elite_1234 hp_mutation
           0%nat _ 28%nat).
  decide_eq (run_eq_dec (list_eq_dec Formula_eq_dec)).
Defined.

(** X17: when [popSize] and the immigration fraction are not negative
    and the elite exceeds the quota [popSize * (1 - immigrationSize)] by
    less than one, the breeder raises nothing and returns a generation
    of exactly [popSize] members. *)
Theorem breeder_succeeds_within_the_quota :
  forall (entropy : nat -> N) (population : list Formula)
         (hp : HyperParams) (s : cursor),
    (0 <= popSize hp)%Z ->
    (Z2Qc 0 <= immigrationSize hp)%Qc ->
    (Z2Qc (-1) < Z2Qc (popSize hp) * (Z2Qc 1 - immigrationSize hp)
                 - Z2Qc (Z.of_nat (length population)))%Qc ->
    exists base s',
      __breedPopulation entropy population hp s = Ok (base, s') /\
      Z.of_nat (length base) = popSize hp.
Proof. intros. apply breedPopulation_ok; assumption. Qed.

Lemma breeder_succeeds_within_the_quota_witness :
  exists base s',
    __breedPopulation example_draws elite_1234 hp_mutation 0%nat
    = Ok (base, s') /\
    Z.of_nat (length base) = popSize hp_mutation.
Proof.
  apply (breeder_succeeds_within_the_quota example_draws elite_1234
           hp_mutation 0%nat); vm_compute; congruence.
Defined.

(** ** Evolution engine: edges of the budget and of the population *)

Lemma createPopulation_first entropy r nd n s :
  (1 <= n)%Z ->
  exists first rest,
    __createPopulation entropy r nd n s
    = Ok (first :: rest, (s + Z.to_nat n * 2)%nat) /\
    fitness first = None /\
    Forall (fun f => fitness f = None) rest /\
    length (first :: rest) = Z.to_nat n.
Proof.
  intro Hn.
  destruct (createPopulation_total entropy r nd n s) as (l & E & Hl & Hf).
  destruct l as [|first rest]; [cbn in Hl; lia|].
  inversion Hf; subst. exists first, rest. auto.
Qed.

(** X18: called with a dataset that is not empty while the module has no
    [hyperParams] of its own, [evolve] raises [NameError] in its first
    generation, whatever hyperparameters it is handed (a budget and a
    population of at least one). *)
Theorem evolve_needs_the_module_hyperParams :
  forall (entropy : nat -> N) (datapoint : DataPoint)
         (data : list DataPoint) (hp : HyperParams) (s : cursor),
    (1 <= cycles hp)%Z ->
    (1 <= popSize hp)%Z ->
    evolve entropy None (datapoint :: data) hp s = Raise NameError.
Proof.
  intros entropy datapoint data hp s Hc Hp.
  destruct (createPopulation_first entropy (mcrange hp) (dps hp)
              (popSize hp) s Hp) as (first & rest & E & Hnone & _).
  unfold evolve. unfold bind at 1. rewrite E.
  destruct (Z.to_nat (cycles hp)) as [|n] eqn:En; [lia|].
  cbn [evolve_loop]. unfold bind at 1. unfold bind at 1.
  unfold __scorePopulation. cbn [rmapM]. rewrite Hnone. reflexivity.
Qed.

Lemma evolve_needs_the_module_hyperParams_witness :
  evolve tournament_draws None (mkDataPoint (Z2Qc 0) (Z2Qc 0) :: [])
         hp_pair 0%nat
  = Raise NameError.
Proof.
  apply (evolve_needs_the_module_hyperParams tournament_draws
           (mkDataPoint (Z2Qc 0) (Z2Qc 0)) [] hp_pair 0%nat);
    vm_compute; congruence.
Defined.

(** X19: with a [popSize] of zero or below the initial population is
    empty and [evolve] raises [IndexError], whatever the data, the
    budget and the module. *)
Theorem evolve_needs_a_population :
  forall (entropy : nat -> N) (module : option HyperParams)
         (data : list DataPoint) (hp : HyperParams) (s : cursor),
    (popSize hp <= 0)%Z ->
    evolve entropy module data hp s = Raise IndexError.
Proof.
  intros entropy module data hp s Hp.
  destruct (createPopulation_total entropy (mcrange hp) (dps hp)
              (popSize hp) s) as (l & E & Hl & _).
  destruct l as [|a t]; [|cbn in Hl; lia].
  unfold evolve. unfold bind at 1. rewrite E.
  destruct (Z.to_nat (cycles hp)) as [|n]; reflexivity.
Qed.

Lemma evolve_needs_a_population_witness :
  evolve example_draws None data_origin
         (mkHyperParams 10 (mkMCRange 0 10 0 10) 0 (Z2Qc 1) (Z2Qc 5) 0
                        (Q2Qc (2 # 10)) (Q2Qc (4 # 10)) (Q2Qc (2 # 10)))
         0%nat
  = Raise IndexError.
Proof.
  apply (evolve_needs_a_population example_draws None data_origin).
  vm_compute. congruence.
Defined.

Lemma unscored_not_scored first rest :
  fitness first = None -> ~ scored (first :: rest).
Proof.
  intros Hn Hs. inversion Hs as [|? ? [v Hv] _]; subst. congruence.
Qed.

(** X20: with a budget of zero cycles or below the loop is not entered
    and the initial population is never scored: [evolve] returns its
    single candidate, unscored, together with [cycles] when [popSize]
    is 1, and raises [TypeError] when [popSize] is 2 or more. *)
Theorem evolve_without_a_budget :
  forall (entropy : nat -> N) (module : option HyperParams)
         (data : list DataPoint) (hp : HyperParams) (s : cursor),
    (cycles hp <= 0)%Z ->
    (1 <= popSize hp)%Z ->
    exists first rest s',
      __createPopulation entropy (mcrange hp) (dps hp) (popSize hp) s
      = Ok (first :: rest, s') /\
      fitness first = None /\
      evolve entropy module data hp s
      = if (popSize hp =? 1)%Z then Ok ((first, cycles hp), s')
        else Raise TypeError.
Proof.
  intros entropy module data hp s Hc Hp.
  destruct (createPopulation_first entropy (mcrange hp) (dps hp)
              (popSize hp) s Hp) as (first & rest & E & Hnone & _ & Hl).
  exists first, rest, (s + Z.to_nat (popSize hp) * 2)%nat.
  split; [exact E|]. split; [exact Hnone|].
  unfold evolve. unfold bind at 1. rewrite E.
  replace (Z.to_nat (cycles hp)) with 0%nat by lia.
  cbn [evolve_loop]. unfold bind at 1. cbn [ret]. unfold bind.
  destruct (Z.eqb_spec (popSize hp) 1) as [E1|E1].
  - destruct rest as [|a t]; [reflexivity|]. cbn in Hl. lia.
  - rewrite best_unscored_raises.
    + reflexivity.
    + cbn [length] in *. lia.
    + apply unscored_not_scored. exact Hnone.
Qed.

Lemma evolve_without_a_budget_witness :
  exists first rest s',
    __createPopulation example_draws (mcrange (hp_dps 0)) (dps (hp_dps 0))
                       (popSize (hp_dps 0)) 0%nat
    = Ok (first :: rest, s') /\
    fitness first = None /\
    evolve example_draws None data_origin
           (mkHyperParams 0 (mkMCRange 0 10 0 10) 10 (Z2Qc 1) (Z2Qc 5) 0
                          (Q2Qc (2 # 10)) (Q2Qc (4 # 10)) (Q2Qc (2 # 10)))
           0%nat
    = if (10 =? 1)%Z then Ok ((first, 0%Z), s') else Raise TypeError.
Proof.
  apply (evolve_without_a_budget example_draws None data_origin
           (mkHyperParams 0 (mkMCRange 0 10 0 10) 10 (Z2Qc 1) (Z2Qc 5) 0
                          (Q2Qc (2 # 10)) (Q2Qc (4 # 10)) (Q2Qc (2 # 10)))
           0%nat); vm_compute; congruence.
Defined.

(** ** Evolution engine: what every generation keeps *)

Lemma rmapM_length {A B} (f : A -> result B) (l : list A) (l' : list B) :
  rmapM f l = Ok l' -> length l' = length l.
Proof.
  revert l'. induction l as [|a t IH]; intros l' H.
  - inversion H. reflexivity.
  - cbn [rmapM] in H. destruct (f a) as [b|e]; [|discriminate].
    cbn [rbind] in H. destruct (rmapM f t) as [bs|e]; [|discriminate].
    inversion H; subst. cbn. f_equal. apply IH. reflexivity.
Qed.

Lemma lift_inv {A} (r : result A) s a s' :
  lift r s = Ok (a, s') -> r = Ok a /\ s' = s.
Proof.
  unfold lift. destruct r; intro H; inversion H; auto.
Qed.

(** X21: with a [popSize] that is not negative, every generation the
    loop of [evolve] evaluates has exactly [popSize] members. *)
Theorem every_generation_has_popSize_members :
  forall (entropy : nat -> N) (module : option HyperParams)
         (data : list DataPoint) (hp : HyperParams) (i : nat)
         (s : cursor) (fit : list Formula) (s' : cursor),
    (0 <= popSize hp)%Z ->
    scoredGeneration entropy module data hp i s = Ok (fit, s') ->
    Z.of_nat (length fit) = popSize hp.
Proof.
  intros entropy module data hp i s fit s' Hp H.
  destruct i as [|j]; cbn [scoredGeneration] in H.
  - apply bind_Ok in H. destruct H as (base & s1 & Ec & H).
    apply lift_inv in H. destruct H as [H _].
    apply rmapM_length in H. rewrite H.
    destruct (createPopulation_total entropy (mcrange hp) (dps hp)
                (popSize hp) s) as (l & E & Hl & _).
    rewrite E in Ec. inversion Ec; subst. lia.
  - apply bind_Ok in H. destruct H as (fit0 & s1 & _ & H).
    apply bind_Ok in H. destruct H as (elite & s2 & _ & H).
    apply bind_Ok in H. destruct H as (base & s3 & Eb & H).
    apply lift_inv in H. destruct H as [H _].
    apply rmapM_length in H. rewrite H.
    destruct (breedPopulation_inv _ _ _ _ _ _ Eb)
      as (? & ? & ? & ? & ? & _ & _ & _ & _ & Hl).
    exact Hl.
Qed.

Lemma every_generation_has_popSize_members_witness :
  Z.of_nat (length [lineFormula 1 2 (Some 2%Z); lineFormula 4 5 (Some 5%Z)])
  = popSize hp_pair.
Proof.
  apply (every_generation_has_popSize_members tournament_draws
           (Some hp_pair) data_origin hp_pair 0%nat 0%nat _ 4%nat).
  - vm_compute. congruence.
  - decide_eq (run_eq_dec (list_eq_dec Formula_eq_dec)).
Defined.

Lemma scored_generation_fitness g data base :
  Forall (fun f => fitness f = None \/ fitness_is_score g data f) base ->
  Forall (fitness_is_score g data)
         (map (fun candidate =>
                 with_score (spec_score candidate data (dps g)) candidate)
              base).
Proof.
  intro H. apply Forall_forall. intros f Hf. apply in_map_iff in Hf.
  destruct Hf as (cand & <- & Hin). rewrite Forall_forall in H.
  unfold fitness_is_score, with_score. cbn [fitness].
  change (spec_score _ data (dps g)) with (spec_score cand data (dps g)).
  destruct (truthy (fitness cand)) eqn:Et; [|reflexivity].
  destruct (H cand Hin) as [En|Es]; [|exact Es].
  rewrite En in Et. discriminate.
Qed.

Lemma evolve_loop_fitness entropy g data hp :
  forall n i base s r s',
    (i + Z.of_nat n = cycles hp)%Z ->
    (1 <= n)%nat ->
    Forall (fun f => fitness f = None \/ fitness_is_score g data f) base ->
    evolve_loop entropy (Some g) data hp n i base s = Ok (r, s') ->
    match r with
    | inl (b, k) => fitness_is_score g data b /\ (i + 1 <= k <= cycles hp)%Z
    | inr pop => Forall (fitness_is_score g data) pop /\ (0 <= i)%Z \/
                 Forall (fitness_is_score g data) pop
    end.
Proof.
  induction n as [|n IH]; intros i base s r s' Hi Hn Hbase H; [lia|].
  cbn [evolve_loop] in H.
  apply bind_Ok in H. destruct H as (fit & s1 & Ef & H).
  apply lift_inv in Ef. destruct Ef as [Ef ->].
  rewrite scorePopulation_bound in Ef. inversion Ef; subst fit; clear Ef.
  pose proof (scored_generation_fitness g data base Hbase) as Hfit.
  set (fit := map (fun candidate =>
                     with_score (spec_score candidate data (dps g)) candidate)
                  base) in *.
  apply bind_Ok in H. destruct H as (b0 & s1 & Eb & H).
  apply lift_inv in Eb. destruct Eb as [Eb ->].
  rewrite Forall_forall in Hfit.
  destruct (is_zero (fitness b0)).
  - inversion H; subst r s'. split; [|lia].
    apply Hfit, best_In, Eb.
  - apply bind_Ok in H. destruct H as (elite & s1 & Es & H).
    apply bind_Ok in H. destruct H as (base' & s2 & Eb' & H).
    destruct (selectPopulation_inv _ _ _ _ _ _ Es) as (_ & Hsub & _).
    assert (Helite : Forall (fitness_is_score g data) elite).
    { apply Forall_forall. intros f Hf. apply Hfit, Hsub, Hf. }
    destruct (Z.ltb_spec (i + 1) (cycles hp)) as [Hlt|Hge].
    + destruct (breedPopulation_inv _ _ _ _ _ _ Eb')
        as (children & s3 & mutated & s4 & newcomers
            & Esm & _ & Ec & Ep & _).
      assert (Hb' : Forall (fun f => fitness f = None
                                     \/ fitness_is_score g data f) base').
      { subst base'. apply Forall_app. split; [|apply Forall_app; split].
        - eapply Forall_impl; [|exact Helite]. intros; right; assumption.
        - destruct (sample_inv _ _ _ _ _ _ Esm) as (_ & _ & rest & Hp).
          apply Forall_forall. intros f Hf. left.
          assert (Hin : In f (__potentialChildren elite)).
          { apply (Permutation_in _ Hp). apply in_or_app. left. exact Hf. }
          apply potentialChildren_In in Hin. apply Hin.
        - destruct (createPopulation_total entropy (mcrange hp) (dps hp)
                      (popSize hp - (Z.of_nat (length children)
                                     + Z.of_nat (length elite))) s4)
            as (l & E & _ & Hnone).
          rewrite E in Ec. inversion Ec; subst.
          eapply Forall_impl; [|exact Hnone]. intros; left; assumption. }
      specialize (IH (i + 1)%Z base' s2 r s' ltac:(lia) ltac:(lia) Hb' H).
      destruct r as [[b k]|pop].
      * destruct IH as [Hb Hk]. split; [exact Hb | lia].
      * destruct IH as [[Hpop _]|Hpop]; right; exact Hpop.
    + inversion Eb'; subst base' s2; clear Eb'.
      destruct n as [|n']; [|lia].
      cbn [evolve_loop] in H. inversion H; subst r s'. right. exact Helite.
Qed.

(** X22: with the module's [hyperParams] bound and a budget of at least
    one cycle, the fitness of the candidate [evolve] returns is its
    score on the data: a fitness carried over from an earlier
    generation is never stale.  The number of cycles returned lies
    between 1 and [cycles]. *)
Theorem evolve_returns_a_true_fitness :
  forall (entropy : nat -> N) (g : HyperParams) (data : list DataPoint)
         (hp : HyperParams) (s : cursor) (b : Formula) (n : Z)
         (s' : cursor),
    (1 <= cycles hp)%Z ->
    evolve entropy (Some g) data hp s = Ok ((b, n), s') ->
    (exists v, __score (Some g) b data = Ok v /\ fitness b = Some v) /\
    (1 <= n <= cycles hp)%Z.
Proof.
  intros entropy g data hp s b n s' Hc H.
  unfold evolve in H.
  apply bind_Ok in H. destruct H as (base & s1 & Ec & H).
  apply bind_Ok in H. destruct H as (r & s2 & El & H).
  assert (Hbase : Forall (fun f => fitness f = None
                                   \/ fitness_is_score g data f) base).
  { destruct (createPopulation_total entropy (mcrange hp) (dps hp)
                (popSize hp) s) as (l & E & _ & Hnone).
    rewrite E in Ec. inversion Ec; subst.
    eapply Forall_impl; [|exact Hnone]. intros; left; assumption. }
  pose proof (evolve_loop_fitness entropy g data hp
                (Z.to_nat (cycles hp)) 0%Z base s1 r s2
                ltac:(lia) ltac:(lia) Hbase El) as Hr.
  assert (Hv : forall f, fitness_is_score g data f ->
                         exists v, __score (Some g) f data = Ok v
                                   /\ fitness f = Some v).
  { intros f Hf. exists (spec_score f data (dps g)).
    split; [apply score_bound | exact Hf]. }
  destruct r as [[b' k]|pop].
  - inversion H; subst b' k s2. destruct Hr as [Hb Hk].
    split; [apply Hv; exact Hb | lia].
  - apply bind_Ok in H. destruct H as (b' & s3 & Eb & H).
    apply lift_inv in Eb. destruct Eb as [Eb ->].
    inversion H; subst b' n s2.
    assert (Hpop : Forall (fitness_is_score g data) pop)
      by (destruct Hr as [[Hp _]|Hp]; exact Hp).
    rewrite Forall_forall in Hpop.
    split; [apply Hv, Hpop, best_In, Eb | lia].
Qed.

Lemma evolve_returns_a_true_fitness_witness :
  (exists v, __score (Some hp_pair) (lineFormula 4 5 (Some 5%Z)) data_origin
             = Ok v
             /\ fitness (lineFormula 4 5 (Some 5%Z)) = Some v) /\
  (1 <= 1 <= cycles hp_pair)%Z.
Proof.
  apply (evolve_returns_a_true_fitness tournament_draws hp_pair data_origin
           hp_pair 0%nat (lineFormula 4 5 (Some 5%Z)) 1%Z 5%nat).
  - vm_compute. congruence.
  - decide_eq evolve_eq_dec.
Defined.

(** ** Evolution engine: the default hyperparameters *)

Lemma evolve_ok entropy g data hp s :
  valid_hyperParams hp -> feasible hp ->
  exists b n s',
    evolve entropy (Some g) data hp s = Ok ((b, n), s') /\
    (1 <= n <= cycles hp)%Z.
Proof.
  intros Hv Hf. pose proof Hv as (Hcyc & Hpop & _).
  destruct (createPopulation_total entropy (mcrange hp) (dps hp)
              (popSize hp) s) as (base & Ec & Hlen & _).
  destruct (evolve_loop_spec entropy g data hp s Hv Hf
              (Z.to_nat (cycles hp)) 0%nat base
              (s + Z.to_nat (popSize hp) * 2)%nat)
    as (r & s' & El & Hr).
  - cbn. lia.
  - lia.
  - cbn [scoredGeneration]. unfold bind. rewrite Ec.
    rewrite scorePopulation_bound. reflexivity.
  - intros j Hj. lia.
  - lia.
  - unfold evolve. unfold bind at 1. rewrite Ec.
    unfold bind at 1. cbn [Z.of_nat] in El. rewrite El.
    destruct r as [[b n]|elite].
    + destruct Hr as (k & fit & -> & Hle & _).
      exists b, (Z.of_nat k + 1)%Z, s'. split; [reflexivity | lia].
    + destruct Hr as (fit & s1 & _ & Hsc & _ & Hall & Hne & _).
      assert (Hel : scored elite)
        by (eapply won_tournament_scored; eassumption).
      destruct (best_ok elite Hel Hne) as (b & Eb & _).
      exists b, (cycles hp), s'. unfold bind. rewrite Eb.
      split; [reflexivity | lia].
Qed.

(** X23: run as the script runs it, with the hyperparameters that
    [__parseArgs] builds when no option is given, [evolve] never raises:
    whatever the data and the random draws it returns a candidate and a
    number of cycles between 1 and 1000. *)
Theorem default_run_returns :
  forall (entropy : nat -> N) (data : list DataPoint) (s : cursor),
  exists b n s',
    evolve entropy (Some default_hyperParams) data default_hyperParams s
    = Ok ((b, n), s') /\
    (1 <= n <= 1000)%Z.
Proof.
  intros entropy data s.
  apply (evolve_ok entropy default_hyperParams data default_hyperParams s).
  - unfold valid_hyperParams, unit_fraction.
    repeat split; vm_compute; congruence.
  - unfold feasible. repeat split; vm_compute; congruence.
Qed.
